(** * token-images: the image service, the HTTP layer and the sync coordinator

    A shallow embedding of [src/services/image-s3-service.ts] and of the
    Hono application that serves the images and the sync endpoints.
    The sync coordinator the application calls, [services/sync-service.ts],
    is not among the sources; it is modelled from sections 3 to 5 of the
    specification.

    Conventions.
    - A JavaScript string is a [string]; every character stands for one
      UTF-16 code unit below 256.
    - A JavaScript number is a [JsNumber]: NaN, an infinity, or a finite
      binary64 value written sign, mantissa, binary exponent.
    - A function that can throw returns an [Outcome]; a function that
      talks to S3, to the file system or to the sync service runs in
      the monad [Eff], which threads the world and records every
      external call. *)

From Stdlib Require Import ZArith NArith String Ascii List Bool Lia.
From stdpp Require Import base option list gmap strings pretty.

Open Scope string_scope.

(** ** JavaScript strings *)

Module JsString.

(** [s.startsWith(p)] *)
Fixpoint startsWith (p s : string) : bool :=
  match p, s with
  | EmptyString, _ => true
  | String a p', String b s' => Ascii.eqb a b && startsWith p' s'
  | String _ _, EmptyString => false
  end.

(** [s.slice(1)] *)
Definition slice1 (s : string) : string :=
  match s with
  | EmptyString => EmptyString
  | String _ rest => rest
  end.

(** Lower-casing of one code unit below 256: A-Z, and the Latin-1
    capitals U+00C0-U+00DE except the multiplication sign U+00D7. *)
Definition lower_unit (c : ascii) : ascii :=
  let n := N_of_ascii c in
  if ((65 <=? n) && (n <=? 90)
      || (192 <=? n) && (n <=? 222) && negb (n =? 215))%N
  then ascii_of_N (n + 32)
  else c.

(** [s.toLowerCase()] *)
Fixpoint toLowerCase (s : string) : string :=
  match s with
  | EmptyString => EmptyString
  | String c rest => String (lower_unit c) (toLowerCase rest)
  end.

(** [s.split(".")], which never returns an empty array. *)
Fixpoint split_dot (s : string) : list string :=
  match s with
  | EmptyString => [EmptyString]
  | String c rest =>
      if Ascii.eqb c "."%char then EmptyString :: split_dot rest
      else match split_dot rest with
           | [] => [String c EmptyString]
           | seg :: segs => String c seg :: segs
           end
  end.

(** [arr.pop()] of a fresh array: its last element, if any. *)
Definition pop {A} (arr : list A) : option A := last arr.

(** Truthiness of a string: only the empty string is falsy. *)
Definition truthy (s : string) : bool := negb (String.eqb s "").

(** [files.find(pred)] *)
Fixpoint find (pred : string -> bool) (files : list string) : option string :=
  match files with
  | [] => None
  | f :: rest => if pred f then Some f else find pred rest
  end.

End JsString.

(** ** JavaScript values that a property read can produce *)

Inductive JsValue : Type :=
  | VUndefined
  | VString (s : string)
  | VFunction (name : string)
  | VObject (name : string).

Definition value_truthy (v : JsValue) : bool :=
  match v with
  | VUndefined => false
  | VString s => JsString.truthy s
  | VFunction _ | VObject _ => true
  end.

Definition is_string (v : JsValue) : bool :=
  match v with VString _ => true | _ => false end.

(** Lookup in the own properties of an object literal. *)
Fixpoint own_property {A} (props : list (string * A)) (key : string) : option A :=
  match props with
  | [] => None
  | (k, v) :: rest => if String.eqb k key then Some v else own_property rest key
  end.

(** The properties every object literal inherits from [Object.prototype]. *)
Definition ObjectPrototype : list (string * JsValue) :=
  [ ("constructor", VFunction "Object");
    ("__proto__", VObject "Object.prototype");
    ("hasOwnProperty", VFunction "hasOwnProperty");
    ("isPrototypeOf", VFunction "isPrototypeOf");
    ("propertyIsEnumerable", VFunction "propertyIsEnumerable");
    ("toLocaleString", VFunction "toLocaleString");
    ("toString", VFunction "toString");
    ("valueOf", VFunction "valueOf");
    ("__defineGetter__", VFunction "__defineGetter__");
    ("__defineSetter__", VFunction "__defineSetter__");
    ("__lookupGetter__", VFunction "__lookupGetter__");
    ("__lookupSetter__", VFunction "__lookupSetter__") ].

(** [obj[key]] for an object literal whose own properties are strings:
    the own property, else the inherited one, else [undefined]. *)
Definition get_property (own : list (string * string)) (key : string) : JsValue :=
  match own_property own key with
  | Some s => VString s
  | None =>
      match own_property ObjectPrototype key with
      | Some v => v
      | None => VUndefined
      end
  end.

(** A value that is a string or [undefined], when it is truthy. *)
Definition if_truthy (a : option string) : option string :=
  match a with
  | Some s => if JsString.truthy s then Some s else None
  | None => None
  end.

(** [a || b] on values that are a string or [undefined]. *)
Definition or_else (a b : option string) : option string :=
  match if_truthy a with
  | Some _ => a
  | None => b
  end.

(** [a || "text"] *)
Definition or_default (a : option string) (text : string) : string :=
  match if_truthy a with
  | Some s => s
  | None => text
  end.

(** ** image-s3-service.ts: getMimeType *)

Definition mimeTypes : list (string * string) :=
  [ ("png", "image/png");
    ("jpg", "image/jpeg");
    ("jpeg", "image/jpeg");
    ("webp", "image/webp");
    ("svg", "image/svg+xml");
    ("gif", "image/gif");
    ("bmp", "image/bmp");
    ("ico", "image/x-icon");
    ("tiff", "image/tiff");
    ("tif", "image/tiff") ].

Definition cleanExtension (extension : string) : string :=
  if JsString.startsWith "." extension then JsString.slice1 extension else extension.

(** [mimeTypes[cleanExtension.toLowerCase()] || "application/octet-stream"] *)
Definition getMimeType (extension : string) : JsValue :=
  let v := get_property mimeTypes (JsString.toLowerCase (cleanExtension extension)) in
  if value_truthy v then v else VString "application/octet-stream".

(** ** JavaScript numbers and [Number(string)] *)

(** A binary64 value.  [Finite neg m e] is [(-1)^neg * m * 2^e]; zero
    keeps its sign. *)
Inductive JsNumber : Type :=
  | NaN
  | Infinity (neg : bool)
  | Finite (neg : bool) (m : N) (e : Z).

Module JsNumberOps.

Definition isNaN (num : JsNumber) : bool :=
  match num with NaN => true | _ => false end.

(** [Number.isInteger(num)] *)
Definition isInteger (num : JsNumber) : bool :=
  match num with
  | Finite _ m e =>
      if (0 <=? e)%Z then true
      else (Z.of_N m mod 2 ^ (- e) =? 0)%Z
  | _ => false
  end.

(** [num < 0] *)
Definition lt_zero (num : JsNumber) : bool :=
  match num with
  | NaN => false
  | Infinity neg => neg
  | Finite neg m _ => neg && negb (m =? 0)%N
  end.

(** The integer a number stands for, when it is a non-negative
    integer (and 0 otherwise). *)
Definition to_N (num : JsNumber) : N :=
  match num with
  | Finite _ m e =>
      if (0 <=? e)%Z then (m * 2 ^ Z.to_N e)%N
      else (m / 2 ^ Z.to_N (- e))%N
  | _ => 0%N
  end.

(** [(p / q) / 2^k] as a fraction. *)
Definition shift_ratio (p q k : Z) : Z * Z :=
  if (0 <=? k)%Z then (p, q * 2 ^ k)%Z else (p * 2 ^ (- k), q)%Z.

(** [floor (log2 (p / q))] for positive [p] and [q]. *)
Definition floor_log2 (p q : Z) : Z :=
  let d := (Z.log2 p - Z.log2 q)%Z in
  let '(p', q') := shift_ratio p q d in
  if (q' <=? p')%Z then d else (d - 1)%Z.

(** Round the positive rational [p / q] to the nearest binary64 value,
    ties to even. *)
Definition round_to_double (neg : bool) (p q : Z) : JsNumber :=
  let e0 := floor_log2 p q in
  if (1024 <=? e0)%Z then Infinity neg
  else
    let ex := Z.max (e0 - 52) (-1074) in
    let '(p', q') := shift_ratio p q ex in
    let k := (p' / q')%Z in
    let r := (p' mod q')%Z in
    let m := if (2 * r <? q')%Z then k
             else if (q' <? 2 * r)%Z then (k + 1)%Z
             else if Z.even k then k else (k + 1)%Z in
    let '(m, ex) := if (m =? 2 ^ 53)%Z then (2 ^ 52, ex + 1)%Z else (m, ex) in
    if (971 <? ex)%Z then Infinity neg
    else if (m =? 0)%Z then Finite neg 0 0
    else Finite neg (Z.to_N m) ex.

(** The number with mathematical value [m * 10^e]. *)
Definition of_decimal (neg : bool) (m : N) (e : Z) : JsNumber :=
  if (m =? 0)%N then Finite neg 0 0
  else if (0 <=? e)%Z then round_to_double neg (Z.of_N m * 10 ^ e) 1
  else round_to_double neg (Z.of_N m) (10 ^ (- e)).

Definition is_white_space (c : ascii) : bool :=
  let n := N_of_ascii c in
  ((9 <=? n) && (n <=? 13) || (n =? 32) || (n =? 160))%N.

Fixpoint trim_start (l : list ascii) : list ascii :=
  match l with
  | c :: rest => if is_white_space c then trim_start rest else l
  | [] => []
  end.

Definition trim (l : list ascii) : list ascii :=
  rev (trim_start (rev (trim_start l))).

(** The value of [c] as a digit in [base] (2, 8, 10 or 16). *)
Definition digit_value (base : N) (c : ascii) : option N :=
  let n := N_of_ascii c in
  let v := if ((48 <=? n) && (n <=? 57))%N then Some (n - 48)%N
           else if ((97 <=? n) && (n <=? 102))%N then Some (n - 87)%N
           else if ((65 <=? n) && (n <=? 70))%N then Some (n - 55)%N
           else None in
  match v with
  | Some d => if (d <? base)%N then Some d else None
  | None => None
  end.

(** Read the longest run of digits: the accumulated value, the number
    of digits read, and what follows. *)
Fixpoint take_digits (base : N) (l : list ascii) (acc : N) (count : nat)
  : N * nat * list ascii :=
  match l with
  | c :: rest =>
      match digit_value base c with
      | Some d => take_digits base rest (acc * base + d)%N (S count)
      | None => (acc, count, l)
      end
  | [] => (acc, count, [])
  end.

(** ExponentPart, up to the end of the literal. *)
Definition parse_exponent (l : list ascii) : option Z :=
  let '(neg, digits) :=
    match l with
    | "+"%char :: rest => (false, rest)
    | "-"%char :: rest => (true, rest)
    | _ => (false, l)
    end in
  match take_digits 10 digits 0 0 with
  | (_, O, _) => None
  | (v, _, []) => Some (if neg then - Z.of_N v else Z.of_N v)%Z
  | _ => None
  end.

(** StrUnsignedDecimalLiteral other than [Infinity]: mantissa and
    decimal exponent. *)
Definition parse_unsigned_decimal (l : list ascii) : option (N * Z) :=
  let '(ip, ni, r1) := take_digits 10 l 0 0 in
  let '(m, nf, r2) :=
    match r1 with
    | "."%char :: r => take_digits 10 r ip 0
    | _ => (ip, O, r1)
    end in
  match (ni + nf)%nat with
  | O => None
  | _ =>
      match r2 with
      | [] => Some (m, - Z.of_nat nf)%Z
      | c :: r3 =>
          if Ascii.eqb c "e" || Ascii.eqb c "E" then
            match parse_exponent r3 with
            | Some ev => Some (m, ev - Z.of_nat nf)%Z
            | None => None
            end
          else None
      end
  end.

Definition Infinity_literal : list ascii := list_ascii_of_string "Infinity".

Definition list_ascii_eqb (a b : list ascii) : bool :=
  String.eqb (string_of_list_ascii a) (string_of_list_ascii b).

Definition parse_decimal (neg : bool) (l : list ascii) : JsNumber :=
  if list_ascii_eqb l Infinity_literal then Infinity neg
  else match parse_unsigned_decimal l with
       | Some (m, e) => of_decimal neg m e
       | None => NaN
       end.

(** NonDecimalIntegerLiteral: [0x], [0o] or [0b] and at least one digit. *)
Definition parse_non_decimal (base : N) (digits : list ascii) : JsNumber :=
  match take_digits base digits 0 0 with
  | (_, O, _) => NaN
  | (v, _, []) => of_decimal false v 0
  | _ => NaN
  end.

(** StringToNumber. *)
Definition Number (s : string) : JsNumber :=
  match trim (list_ascii_of_string s) with
  | [] => Finite false 0 0
  | "+"%char :: rest => parse_decimal false rest
  | "-"%char :: rest => parse_decimal true rest
  | "0"%char :: c :: rest =>
      if Ascii.eqb c "x" || Ascii.eqb c "X" then parse_non_decimal 16 rest
      else if Ascii.eqb c "o" || Ascii.eqb c "O" then parse_non_decimal 8 rest
      else if Ascii.eqb c "b" || Ascii.eqb c "B" then parse_non_decimal 2 rest
      else parse_decimal false ("0"%char :: c :: rest)
  | l => parse_decimal false l
  end.

End JsNumberOps.

(** ** Exceptions and effects *)

(** What a [catch] clause can receive: a [ZodError] with the messages of
    its issues, any other [Error] with its message, or a thrown value
    that is not an [Error]. *)
Inductive Exn : Type :=
  | ZodError (issues : list string)
  | Error (message : string)
  | NonError.

Inductive Outcome (A : Type) : Type :=
  | Ok (a : A)
  | Throw (e : Exn).
Arguments Ok {A} a.
Arguments Throw {A} e.

Definition outcome_bind {A B} (m : Outcome A) (k : A -> Outcome B) : Outcome B :=
  match m with
  | Ok a => k a
  | Throw e => Throw e
  end.

(** The requests the application sends to its collaborators. *)
Inductive Call : Type :=
  | S3GetObject (bucket key : string)
  | S3HeadObject (bucket key : string)
  | FsReaddir (path : string)
  | FsReadFile (path : string)
  | SyncGetStatus (chainId : N)
  | SyncStart (chainId : N).

(** A computation over a world [W]: it may throw, it may change the
    world, and it appends the calls it makes to the trace. *)
Definition Eff (W A : Type) : Type := list Call * W -> Outcome A * (list Call * W).

Module EffOps.

Definition ret {W A} (a : A) : Eff W A := fun s => (Ok a, s).

Definition bind {W A B} (m : Eff W A) (k : A -> Eff W B) : Eff W B :=
  fun s =>
    match m s with
    | (Ok a, s') => k a s'
    | (Throw e, s') => (Throw e, s')
    end.

Definition lift {W A} (o : Outcome A) : Eff W A := fun s => (o, s).

(** [try { body } catch (e) { handler e }] *)
Definition try_catch {W A} (body : Eff W A) (handler : Exn -> Eff W A) : Eff W A :=
  fun s =>
    match body s with
    | (Ok a, s') => (Ok a, s')
    | (Throw e, s') => handler e s'
    end.

(** One request to a collaborator: logged, then answered by the world. *)
Definition call {W A} (c : Call) (answer : W -> Outcome A * W) : Eff W A :=
  fun '(trace, w) =>
    let '(o, w') := answer w in (o, ((trace ++ [c])%list, w')).

(** Run a list of computations in order. *)
Fixpoint sequence {W A} (ms : list (Eff W A)) : Eff W (list A) :=
  match ms with
  | [] => ret []
  | m :: rest => bind m (fun a => bind (sequence rest) (fun l => ret (a :: l)))
  end.

End EffOps.
Import EffOps.

Declare Scope eff_scope.
Delimit Scope eff_scope with eff.
Notation "'let*' x ':=' m 'in' k" := (bind m (fun x => k))
  (at level 10, x name, m at level 100, k at level 200) : eff_scope.
Open Scope eff_scope.

(** ** The object store and the file system *)

Definition bytes : Type := list Byte.byte.

(** What [reader.read()] yields, call after call. *)
Inductive Reader : Type :=
  | ReadDone
  | ReadFail (e : Exn)
  | ReadChunk (value : bytes) (next : Reader).

(** [response.Body.transformToWebStream().getReader()] *)
Inductive BodyStream : Type :=
  | StreamFails (e : Exn)
  | StreamOpens (reader : Reader).

(** The fields of a GetObject response that the service reads. *)
Record S3Response : Type := {
  Body : option BodyStream;
  ContentType : option string;
  Metadata : option (list (string * string));
}.

(** S3, the file system and the helpers of the runtime the image code
    calls.  [s3_get] and [s3_head] answer [s3Client.send] for a bucket
    and a key. *)
Class Storage : Type := {
  StorageWorld : Type;
  s3_get : string -> string -> StorageWorld -> Outcome S3Response * StorageWorld;
  s3_head : string -> string -> StorageWorld -> Outcome unit * StorageWorld;
  readdir : string -> StorageWorld -> Outcome (list string) * StorageWorld;
  readFile : string -> StorageWorld -> Outcome bytes * StorageWorld;
}.

(** The pure helpers of the platform: [path.join], [process.cwd()], the
    text of a number in a template literal, viem's [isAddress], and the
    text the engine gives a built-in function of a given name when it
    is turned into a string (its layout is left to the engine). *)
Class Platform : Type := {
  join : list string -> string;
  cwd : string;
  Number_toString : N -> string;
  isAddress : string -> bool;
  Function_toString : string -> string;
}.

(** The value the image functions resolve to. *)
Record StoredImage : Type := {
  buffer : bytes;
  contentType : JsValue;
  extension : option string;
}.

Record Token : Type := {
  token_chainId : N;
  token_address : string;
}.

Record TokenCheck : Type := {
  chainId : N;
  address : string;
  exists_ : bool;
}.

(** An entry of the array [Promise.allSettled] resolves to. *)
Inductive Settled (A : Type) : Type :=
  | Fulfilled (value : A)
  | Rejected (reason : Exn).
Arguments Fulfilled {A} value.
Arguments Rejected {A} reason.

Definition BUCKET_NAME : string := "hypurrfi-token-imgs".

Definition octet_stream : string := "application/octet-stream".

(** The loop over [reader.read()]. *)
Fixpoint read_chunks (reader : Reader) (chunks : list bytes) : Outcome (list bytes) :=
  match reader with
  | ReadDone => Ok chunks
  | ReadFail e => Throw e
  | ReadChunk value next => read_chunks next (chunks ++ [value])%list
  end.

(** [buffer.set(chunk, offset)], a RangeError when the chunk does not fit. *)
Definition Uint8Array_set (buf chunk : bytes) (offset : nat) : Outcome bytes :=
  if (offset + length chunk <=? length buf)%nat
  then Ok (take offset buf ++ chunk ++ drop (offset + length chunk) buf)%list
  else Throw (Error "RangeError: offset is out of bounds").

(** [for (const chunk of chunks) { buffer.set(chunk, offset); offset += chunk.length }] *)
Fixpoint copy_chunks (chunks : list bytes) (buf : bytes) (offset : nat) : Outcome bytes :=
  match chunks with
  | [] => Ok buf
  | chunk :: rest =>
      outcome_bind (Uint8Array_set buf chunk offset)
        (fun buf' => copy_chunks rest buf' (offset + length chunk))
  end.

(** [new Uint8Array(chunks.reduce((acc, chunk) => acc + chunk.length, 0))]
    filled by the copy loop. *)
Definition assemble (chunks : list bytes) : Outcome bytes :=
  let total := fold_left (fun acc chunk => (acc + length chunk)%nat) chunks 0%nat in
  copy_chunks chunks (replicate total Byte.x00) 0.

Section ImageService.
Context `{Platform} `{Storage}.

Local Abbreviation M := (Eff StorageWorld).

(** [`${chainId}/${address.toLowerCase()}/image`] *)
Definition object_key (chainId : N) (address : string) : string :=
  Number_toString chainId +:+ "/" +:+ JsString.toLowerCase address +:+ "/image".

Definition getImageFromS3 (chainId : N) (address : string) : M (option StoredImage) :=
  try_catch
    (let key := object_key chainId address in
     let* response := call (S3GetObject BUCKET_NAME key) (s3_get BUCKET_NAME key) in
     match Body response with
     | None => ret None
     | Some body =>
         let* reader :=
           lift (match body with
                 | StreamFails e => Throw e
                 | StreamOpens reader => Ok reader
                 end) in
         let* chunks := lift (read_chunks reader []) in
         let* buffer := lift (assemble chunks) in
         let contentType := or_default (ContentType response) octet_stream in
         let metadata_extension :=
           match Metadata response with
           | Some metadata => own_property metadata "extension"
           | None => None
           end in
         match if_truthy metadata_extension with
         | Some ext =>
             ret (Some {| buffer := buffer;
                          contentType := getMimeType ext;
                          extension := Some ext |})
         | None =>
             ret (Some {| buffer := buffer;
                          contentType := VString contentType;
                          extension := None |})
         end
     end)
    (fun _ => ret None).

Definition checkImageExistsInS3 (chainId : N) (address : string) : M bool :=
  try_catch
    (let key := object_key chainId address in
     let* _ := call (S3HeadObject BUCKET_NAME key) (s3_head BUCKET_NAME key) in
     ret true)
    (fun _ => ret false).

(** [Promise.allSettled]: every promise settles, none rejects the whole. *)
Definition settle {A} (m : M A) : M (Settled A) :=
  try_catch (let* a := m in ret (Fulfilled a)) (fun e => ret (Rejected e)).

Definition allSettled {A} (ms : list (M A)) : M (list (Settled A)) :=
  sequence (map settle ms).

(** The callback of [tokens.map]. *)
Definition check_token (token : Token) : M TokenCheck :=
  let* found := checkImageExistsInS3 (token_chainId token) (token_address token) in
  ret {| chainId := token_chainId token;
         address := token_address token;
         exists_ := found |}.

(** The object the callback of [results.map] builds. *)
Definition settled_check (token : Token) (result : Settled TokenCheck) : TokenCheck :=
  {| chainId := token_chainId token;
     address := token_address token;
     exists_ := match result with
                | Fulfilled value => exists_ value
                | Rejected _ => false
                end |}.

(** The callback of [results.map]; [tokens[index]] out of range is
    [undefined], whose property read is a TypeError. *)
Definition collect_result (tokens : list Token) (index : nat)
    (result : Settled TokenCheck) : Outcome TokenCheck :=
  match tokens !! index with
  | None => Throw (Error "TypeError: Cannot read properties of undefined")
  | Some token => Ok (settled_check token result)
  end.

Fixpoint collect_from (tokens : list Token) (index : nat)
    (results : list (Settled TokenCheck)) : Outcome (list TokenCheck) :=
  match results with
  | [] => Ok []
  | result :: rest =>
      outcome_bind (collect_result tokens index result)
        (fun r => outcome_bind (collect_from tokens (S index) rest)
                    (fun rs => Ok (r :: rs)))
  end.

Definition bulkCheckImagesInS3 (tokens : list Token) : M (list TokenCheck) :=
  let* results := allSettled (map check_token tokens) in
  lift (collect_from tokens 0 results).

End ImageService.

(** ** The sync coordinator (services/sync-service.ts) *)

Module Coordinator.

(** Modelled from the spec: the status of a SyncJob (section 3);
    [services/sync-service.ts] is not among the sources. *)
Inductive Status : Type := idle | running | succeeded | failed.

(** Modelled from the spec: the SyncJob record of section 3, with its
    timestamps in milliseconds. *)
Record SyncJob : Type := {
  status : Status;
  startedAt : Z;
  finishedAt : option Z;
  result : option string;
  error : option string;
}.

(** Modelled from the spec: the test [status == running] of step 1,
    giving the record when it is running. *)
Definition running_record (job : option SyncJob) : option SyncJob :=
  match job with
  | Some j => match status j with running => Some j | _ => None end
  | None => None
  end.

Definition is_running (job : option SyncJob) : bool :=
  match running_record job with Some _ => true | None => false end.

(** Modelled from the spec: the answer of the Rate Limiter (4.1). *)
Inductive Decision : Type :=
  | Allowed
  | Denied (remainingTime : Z).

(** Modelled from the spec: SyncOutcome, the tagged union of section 3. *)
Inductive SyncOutcome : Type :=
  | Started (job : SyncJob)
  | AlreadyRunning (job : SyncJob)
  | RateLimited (networkId : N) (remainingTime : Z) (message : string).

(** Modelled from the spec: how the provider call of step 4 begins:
    it is launched, or it throws before launching (step 6). *)
Inductive ProviderLaunch : Type :=
  | Launches
  | ThrowsSynchronously (description : string).

(** Modelled from the spec: how a launched provider call ends (step 5). *)
Inductive ProviderResult : Type :=
  | Succeeds (payload : string)
  | Fails (description : string).

(** Modelled from the spec: the Job Status Store and the Rate Limiter
    records, both keyed by network identifier, and the provider calls
    that were launched and have not completed. *)
Record State : Type := {
  jobs : gmap N SyncJob;
  limits : gmap N Z;
  inflight : list N;
}.

(** Modelled from the spec: the coordinator at process start, with no
    record for any network. *)
Definition initial : State := {| jobs := ∅; limits := ∅; inflight := [] |}.

(** Modelled from the spec: [checkAndRecord] of section 4.1; the
    attempt exactly at cooldown expiry is allowed, and a denial
    records nothing. *)
Definition checkAndRecord (key : N) (cooldownDuration now : Z)
    (records : gmap N Z) : Decision * gmap N Z :=
  match records !! key with
  | None => (Allowed, <[key := now]> records)
  | Some lastAttemptAt =>
      if (cooldownDuration <=? now - lastAttemptAt)%Z
      then (Allowed, <[key := now]> records)
      else (Denied (cooldownDuration - (now - lastAttemptAt)), records)
  end.

(** Modelled from the spec: [compareAndSetRunning] of section 4.2. *)
Definition compareAndSetRunning (key : N) (newJob : SyncJob)
    (store : gmap N SyncJob) : bool * gmap N SyncJob :=
  if is_running (store !! key) then (false, store)
  else (true, <[key := newJob]> store).

(** Modelled from the spec: [getStatus] of section 4.3, a pure read. *)
Definition getStatus (networkId : N) (s : State) : option SyncJob :=
  jobs s !! networkId.

(** Modelled from the spec: the fresh [running] record of step 3. *)
Definition running_job (now : Z) : SyncJob :=
  {| status := running; startedAt := now; finishedAt := None;
     result := None; error := None |}.

(** Modelled from the spec: the [failed] record of steps 5 and 6, with
    its error description and [finishedAt]. *)
Definition failed_job (started now : Z) (description : string) : SyncJob :=
  {| status := failed; startedAt := started; finishedAt := Some now;
     result := None; error := Some description |}.

(** Modelled from the spec: a provider call that completes is no
    longer under way; one occurrence leaves the launched calls. *)
Fixpoint remove_one (networkId : N) (calls : list N) : list N :=
  match calls with
  | [] => []
  | n :: rest => if (n =? networkId)%N then rest else n :: remove_one networkId rest
  end.

(** Modelled from the spec: the terminal record written on provider
    completion (step 5). *)
Definition finish (r : ProviderResult) (now : Z) (job : SyncJob) : SyncJob :=
  match r with
  | Succeeds payload =>
      {| status := succeeded; startedAt := startedAt job;
         finishedAt := Some now; result := Some payload; error := None |}
  | Fails description => failed_job (startedAt job) now description
  end.

Section Configured.
(** The cooldown, and the text of the rate-limit message, which the
    spec leaves open. *)
Variable cooldownDuration : Z.
Variable describe : N -> Z -> string.

(** Modelled from the spec: [start], steps 1 to 4 and 6 of section 4.3. *)
Definition start (networkId : N) (now : Z) (provider : ProviderLaunch)
    (s : State) : SyncOutcome * State :=
  match running_record (jobs s !! networkId) with
  | Some job => (AlreadyRunning job, s)
  | None =>
      match checkAndRecord networkId cooldownDuration now (limits s) with
      | (Denied remainingTime, _) =>
          (RateLimited networkId remainingTime (describe networkId remainingTime), s)
      | (Allowed, limits') =>
          let newJob := running_job now in
          match compareAndSetRunning networkId newJob (jobs s) with
          | (false, _) =>
              (AlreadyRunning (default newJob (jobs s !! networkId)),
               {| jobs := jobs s; limits := limits'; inflight := inflight s |})
          | (true, jobs') =>
              match provider with
              | Launches =>
                  (Started newJob,
                   {| jobs := jobs'; limits := limits';
                      inflight := networkId :: inflight s |})
              | ThrowsSynchronously description =>
                  let job := failed_job now now description in
                  (Started job,
                   {| jobs := <[networkId := job]> jobs'; limits := limits';
                      inflight := inflight s |})
              end
          end
      end
  end.

(** Modelled from the spec: provider completion (step 5), an
    unconditional write by the owner of the running slot. *)
Definition complete (networkId : N) (r : ProviderResult) (now : Z)
    (s : State) : State :=
  {| jobs := alter (finish r now) networkId (jobs s);
     limits := limits s;
     inflight := remove_one networkId (inflight s) |}.

(** Modelled from the spec: what can happen to the coordinator: a
    status read, a call of [start], a provider completion. *)
Inductive Event : Type :=
  | GetStatus (networkId : N)
  | Start (networkId : N) (now : Z) (provider : ProviderLaunch)
  | Complete (networkId : N) (r : ProviderResult) (now : Z).

(** Modelled from the spec: one transition; a completion needs a
    launched provider call. *)
Definition apply_event (ev : Event) (s : State) : option State :=
  match ev with
  | GetStatus _ => Some s
  | Start networkId now provider => Some (snd (start networkId now provider s))
  | Complete networkId r now =>
      if decide (networkId ∈ inflight s)
      then Some (complete networkId r now s)
      else None
  end.

Fixpoint run (events : list Event) (s : State) : option State :=
  match events with
  | [] => Some s
  | ev :: rest =>
      match apply_event ev s with
      | Some s' => run rest s'
      | None => None
      end
  end.

Definition starts (networkId : N) (ev : Event) : bool :=
  match ev with
  | Start n _ _ => (n =? networkId)%N
  | _ => false
  end.

(** The provider calls for [networkId] that are running now. *)
Definition running_count (networkId : N) (s : State) : nat :=
  length (filter (fun n => n = networkId) (inflight s)).

(** For every network, the launched provider calls that have not
    completed are one when the stored record is running, and none
    otherwise. *)
Definition consistent (s : State) : Prop :=
  forall n, running_count n s = if is_running (jobs s !! n) then 1%nat else 0%nat.

End Configured.

End Coordinator.

(** ** Concurrent callers of the coordinator *)

Module Interleaving.
Import Coordinator.

(** Modelled from the spec: a caller of [start] between two steps of
    section 4.3.  Other callers, completions and reads may run
    between any two of them; the limiter's check-and-record and the
    store's compare-and-set are each one step (4.1, 4.2). *)
Inductive Caller : Type :=
  | Reading (networkId : N)
  | Limiting (networkId : N)
  | Setting (networkId : N) (now : Z)
  | Launching (networkId : N) (now : Z)
  | Returned (outcome : SyncOutcome).

(** Modelled from the spec: the coordinator and the callers that are
    inside [start] (section 5: several simultaneous callers, in no
    guaranteed order). *)
Record System : Type := {
  state : State;
  callers : list Caller;
}.

Definition idle_system : System := {| state := initial; callers := [] |}.

(** A caller that has won the running slot and not yet launched. *)
Definition launching (networkId : N) (c : Caller) : nat :=
  match c with
  | Launching n _ => if (n =? networkId)%N then 1 else 0
  | _ => 0
  end.

(** The running jobs of a network: the provider calls under way and
    the callers about to launch one. *)
Definition running_jobs (networkId : N) (sys : System) : nat :=
  running_count networkId (state sys)
  + sum_list_with (launching networkId) (callers sys).

Definition consistent_system (sys : System) : Prop :=
  forall n,
    running_jobs n sys = if is_running (jobs (state sys) !! n) then 1%nat else 0%nat.

Inductive Event : Type :=
  | Arrive (networkId : N)
  | Advance (caller : nat) (now : Z) (provider : ProviderLaunch)
  | Finish (networkId : N) (r : ProviderResult) (now : Z)
  | Poll (networkId : N).

Section Configured.
Variable cooldownDuration : Z.
Variable describe : N -> Z -> string.

(** Modelled from the spec: the next step of a caller, steps 1, 2,
    3 and 4 (or 6) of section 4.3 in turn. *)
Definition advance (c : Caller) (now : Z) (provider : ProviderLaunch)
    (s : State) : Caller * State :=
  match c with
  | Reading networkId =>
      match running_record (jobs s !! networkId) with
      | Some job => (Returned (AlreadyRunning job), s)
      | None => (Limiting networkId, s)
      end
  | Limiting networkId =>
      match checkAndRecord networkId cooldownDuration now (limits s) with
      | (Denied remainingTime, _) =>
          (Returned (RateLimited networkId remainingTime
                       (describe networkId remainingTime)), s)
      | (Allowed, limits') =>
          (Setting networkId now,
           {| jobs := jobs s; limits := limits'; inflight := inflight s |})
      end
  | Setting networkId started =>
      let newJob := running_job started in
      match compareAndSetRunning networkId newJob (jobs s) with
      | (false, _) =>
          (Returned (AlreadyRunning (default newJob (jobs s !! networkId))), s)
      | (true, jobs') =>
          (Launching networkId started,
           {| jobs := jobs'; limits := limits s; inflight := inflight s |})
      end
  | Launching networkId started =>
      match provider with
      | Launches =>
          (Returned (Started (running_job started)),
           {| jobs := jobs s; limits := limits s;
              inflight := networkId :: inflight s |})
      | ThrowsSynchronously description =>
          let job := failed_job started now description in
          (Returned (Started job),
           {| jobs := <[networkId := job]> (jobs s); limits := limits s;
              inflight := inflight s |})
      end
  | Returned outcome => (Returned outcome, s)
  end.

(** Modelled from the spec: one transition of the system: a caller
    enters [start], a caller takes its next step, a provider call
    completes, or the status is read. *)
Definition apply_event (ev : Event) (sys : System) : option System :=
  match ev with
  | Arrive networkId =>
      Some {| state := state sys;
              callers := (callers sys ++ [Reading networkId])%list |}
  | Advance i now provider =>
      match callers sys !! i with
      | Some c =>
          let '(c', s') := advance c now provider (state sys) in
          Some {| state := s'; callers := <[i := c']> (callers sys) |}
      | None => None
      end
  | Finish networkId r now =>
      if decide (networkId ∈ inflight (state sys))
      then Some {| state := complete networkId r now (state sys);
                   callers := callers sys |}
      else None
  | Poll _ => Some sys
  end.

Fixpoint run (events : list Event) (sys : System) : option System :=
  match events with
  | [] => Some sys
  | ev :: rest =>
      match apply_event ev sys with
      | Some sys' => run rest sys'
      | None => None
      end
  end.

(** A caller that nobody interrupts: its four steps in a row. *)
Definition uninterrupted (networkId : N) (now : Z) (provider : ProviderLaunch)
    (s : State) : Caller * State :=
  let '(c1, s1) := advance (Reading networkId) now provider s in
  let '(c2, s2) := advance c1 now provider s1 in
  let '(c3, s3) := advance c2 now provider s2 in
  advance c3 now provider s3.

End Configured.

End Interleaving.

(** ** The HTTP application (index.ts) *)

Import Coordinator.

Section SourceDir.
Context `{Platform} `{Storage}.

Definition getImageFromSourceDir (chainId : N) (address : string)
  : Eff StorageWorld (option StoredImage) :=
  try_catch
    (let tokenDir :=
       join [cwd; "images"; Number_toString chainId; JsString.toLowerCase address] in
     let* files := call (FsReaddir tokenDir) (readdir tokenDir) in
     let imageFile :=
       or_else
         (or_else (JsString.find (JsString.startsWith "image.png") files)
            (JsString.find (JsString.startsWith "image.jpg") files))
         (JsString.find (JsString.startsWith "image.") files) in
     match if_truthy imageFile with
     | None => ret None
     | Some imageFile =>
         let imagePath := join [tokenDir; imageFile] in
         let extension := JsString.pop (JsString.split_dot imageFile) in
         let* buffer := call (FsReadFile imagePath) (readFile imagePath) in
         let contentType :=
           match if_truthy extension with
           | Some ext => getMimeType ext
           | None => VString octet_stream
           end in
         ret (Some {| buffer := buffer;
                      contentType := contentType;
                      extension := extension |})
     end)
    (fun _ => ret None).

End SourceDir.

(** The transform of the [chainId] field, shared by [paramsSchema] and
    [syncParamsSchema].  The number it returns is a non-negative
    integer and is carried as an [N].  What the transform throws is a
    plain [Error]: zod runs a transform without catching, so [parse]
    throws that same [Error] and not a [ZodError]. *)
Definition chainId_transform (val : string) : Outcome N :=
  let num := JsNumberOps.Number val in
  if JsNumberOps.isNaN num || negb (JsNumberOps.isInteger num) || JsNumberOps.lt_zero num
  then
    let text := "chainId must be a valid positive integer value: " +:+ val in
    Throw (Error (if JsString.truthy text then text else "undefined"))
  else Ok (JsNumberOps.to_N num).

(** [syncParamsSchema.parse({ chainId })] for the string the router
    hands over. *)
Definition syncParamsSchema_parse (chainId : string) : Outcome N :=
  chainId_transform chainId.

(** [paramsSchema.parse({ chainId, address })]: the fields in the order
    of the schema; a failed [refine] is a ZodError. *)
Definition paramsSchema_parse `{Platform} (chainId address : string)
  : Outcome (N * string) :=
  outcome_bind (chainId_transform chainId)
    (fun num =>
       if isAddress address then Ok (num, address)
       else Throw (ZodError ["address must be a valid Ethereum address"])).

(** What [startSync] resolves to when the cooldown has not elapsed. *)
Record RateLimitError : Type := {
  rateLimited : bool;
  rl_chainId : N;
  rl_remainingTime : Z;
  rl_message : string;
}.

(** What [startSync] resolves to. *)
Inductive StartResult : Type :=
  | JobRecord (job : SyncJob)
  | RateLimit (e : RateLimitError).

(** The sync service as the application sees it. *)
Class SyncService : Type := {
  SyncWorld : Type;
  getSyncStatus : N -> SyncWorld -> Outcome (option SyncJob) * SyncWorld;
  startSync : N -> SyncWorld -> Outcome StartResult * SyncWorld;
}.

(** [result && result.rateLimited === true] *)
Definition isRateLimitError (syncResult : StartResult) : bool :=
  match syncResult with
  | RateLimit e => rateLimited e
  | JobRecord _ => false
  end.

(** The bodies [c.json] serialises. *)
#[warnings="-register-all"]
Inductive Json : Type :=
  | JNull
  | JBool (b : bool)
  | JNum (n : Z)
  | JString (s : string)
  | JArray (items : list Json)
  | JObject (fields : list (string * Json))
  | JJob (job : SyncJob).

Inductive Response : Type :=
  | JsonResponse (status : N) (body : Json)
  | ImageResponse (body : bytes) (headers : list (string * JsValue)).

Definition response_status (r : Response) : N :=
  match r with
  | JsonResponse status _ => status
  | ImageResponse _ _ => 200
  end.

Definition json_of_rate_limit (e : RateLimitError) : Json :=
  JObject [ ("rateLimited", JBool (rateLimited e));
            ("chainId", JNum (Z.of_N (rl_chainId e)));
            ("remainingTime", JNum (rl_remainingTime e));
            ("message", JString (rl_message e)) ].

Definition json_of_start_result (syncResult : StartResult) : Json :=
  match syncResult with
  | JobRecord job => JJob job
  | RateLimit e => json_of_rate_limit e
  end.

(** [syncResult.chainId], [syncResult.remainingTime] and
    [syncResult.message]: [undefined] on a value without the property. *)
Definition prop_chainId (syncResult : StartResult) : option Json :=
  match syncResult with
  | RateLimit e => Some (JNum (Z.of_N (rl_chainId e)))
  | JobRecord _ => None
  end.

Definition prop_remainingTime (syncResult : StartResult) : option Json :=
  match syncResult with
  | RateLimit e => Some (JNum (rl_remainingTime e))
  | JobRecord _ => None
  end.

Definition prop_message (syncResult : StartResult) : option Json :=
  match syncResult with
  | RateLimit e => Some (JString (rl_message e))
  | JobRecord _ => None
  end.

(** JSON serialisation leaves out the properties that are [undefined]. *)
Fixpoint omit_undefined (fields : list (string * option Json)) : list (string * Json) :=
  match fields with
  | [] => []
  | (k, Some v) :: rest => (k, v) :: omit_undefined rest
  | (_, None) :: rest => omit_undefined rest
  end.

(** The [catch] clause of the two sync routes. *)
Definition sync_catch (e : Exn) : Response :=
  match e with
  | ZodError issues =>
      JsonResponse 400
        (JObject [ ("error", JString "Invalid parameters ");
                   ("details", JArray (map JString issues)) ])
  | Error message =>
      JsonResponse 500
        (JObject [ ("error", JString "Internal server error");
                   ("message", JString message) ])
  | NonError =>
      JsonResponse 500
        (JObject [ ("error", JString "Internal server error");
                   ("message", JString "Unknown error") ])
  end.

(** The [catch] clause of the image route. *)
Definition image_catch (e : Exn) : Response :=
  match e with
  | ZodError issues =>
      JsonResponse 400
        (JObject [ ("error", JString "Invalid parameters");
                   ("details", JArray (map JString issues)) ])
  | _ => JsonResponse 500 (JObject [ ("error", JString "Internal server error") ])
  end.

Section SyncRoutes.
Context `{Platform} `{SyncService}.

(** [app.get("/sync/:chainId")] *)
Definition sync_route (param : string) : Eff SyncWorld Response :=
  try_catch
    (let* chainId := lift (syncParamsSchema_parse param) in
     let* existingStatus := call (SyncGetStatus chainId) (getSyncStatus chainId) in
     match running_record existingStatus with
     | Some job =>
         ret (JsonResponse 200
                (JObject [ ("success", JBool true); ("data", JJob job) ]))
     | None =>
         let* syncResult := call (SyncStart chainId) (startSync chainId) in
         if isRateLimitError syncResult then
           ret (JsonResponse 429
                  (JObject [ ("success", JBool false);
                             ("error", JString "Rate limit exceeded");
                             ("data",
                              JObject (omit_undefined
                                [ ("rateLimited", Some (JBool true));
                                  ("chainId", prop_chainId syncResult);
                                  ("remainingTime", prop_remainingTime syncResult);
                                  ("message", prop_message syncResult) ])) ]))
         else
           ret (JsonResponse 200
                  (JObject [ ("success", JBool true);
                             ("data", json_of_start_result syncResult) ]))
     end)
    (fun e => ret (sync_catch e)).

(** [app.get("/sync/:chainId/status")] *)
Definition sync_status_route (param : string) : Eff SyncWorld Response :=
  try_catch
    (let* chainId := lift (syncParamsSchema_parse param) in
     let* syncStatus := call (SyncGetStatus chainId) (getSyncStatus chainId) in
     match syncStatus with
     | None =>
         ret (JsonResponse 200
                (JObject [ ("success", JBool true);
                           ("data", JNull);
                           ("message",
                            JString ("No sync process found for chain "
                                     +:+ Number_toString chainId)) ]))
     | Some job =>
         ret (JsonResponse 200
                (JObject [ ("success", JBool true); ("data", JJob job) ]))
     end)
    (fun e => ret (sync_catch e)).

End SyncRoutes.

(** HTTP whitespace: tab, line feed, carriage return and space. *)
Definition is_http_whitespace (c : ascii) : bool :=
  let n := N_of_ascii c in
  ((n =? 9) || (n =? 10) || (n =? 13) || (n =? 32))%N.

Fixpoint strip_leading_whitespace (l : list ascii) : list ascii :=
  match l with
  | c :: rest => if is_http_whitespace c then strip_leading_whitespace rest else l
  | [] => []
  end.

(** A header value as it is stored: without the HTTP whitespace at its
    two ends. *)
Definition normalize_header_value (text : string) : string :=
  string_of_list_ascii
    (rev (strip_leading_whitespace
            (rev (strip_leading_whitespace (list_ascii_of_string text))))).

(** NUL, line feed and carriage return may not occur in a header value. *)
Definition is_forbidden_in_header (c : ascii) : bool :=
  let n := N_of_ascii c in
  ((n =? 0) || (n =? 10) || (n =? 13))%N.

(** What a [Headers] object does with a value: it normalises it, and
    throws a TypeError when the result is not a header value. *)
Definition header_value (text : string) : Outcome string :=
  let value := normalize_header_value text in
  if existsb is_forbidden_in_header (list_ascii_of_string value)
  then Throw (Error "TypeError: Invalid header value")
  else Ok value.

Section ImageRoute.
Context `{Platform} `{Storage}.

Definition cache_control : JsValue := VString "public, max-age=86400".

(** [String(value)], as the headers of a response take their values. *)
Definition value_text (v : JsValue) : string :=
  match v with
  | VUndefined => "undefined"
  | VString s => s
  | VFunction name => Function_toString name
  | VObject _ => "[object Object]"
  end.

(** [new Response(imageBuffer, { headers })].  Every header value is
    turned into a string, normalised and checked; a value that is not a
    header value makes the constructor throw a TypeError. *)
Definition image_response (body : bytes) (contentType : JsValue) : Outcome Response :=
  outcome_bind (header_value (value_text contentType)) (fun type =>
    outcome_bind (header_value (Number_toString (N.of_nat (length body)))) (fun len =>
      outcome_bind (header_value (value_text cache_control)) (fun cache =>
        Ok (ImageResponse body
              [ ("Content-Type", VString type);
                ("Content-Length", VString len);
                ("Cache-Control", VString cache) ])))).

Definition defaultImagePath : string := join [cwd; "images"; "default.png"].

(** [app.get("/:chainId/:address")] *)
Definition image_route (chainIdParam addressParam : string)
  : Eff StorageWorld Response :=
  try_catch
    (let* params := lift (paramsSchema_parse chainIdParam addressParam) in
     let chainId := fst params in
     let address := snd params in
     let* fromS3 := getImageFromS3 chainId address in
     let* storedImage :=
       match fromS3 with
       | Some _ => ret fromS3
       | None => getImageFromSourceDir chainId address
       end in
     match storedImage with
     | Some image => lift (image_response (buffer image) (contentType image))
     | None =>
         let* defaultImageBuffer :=
           call (FsReadFile defaultImagePath) (readFile defaultImagePath) in
         let fileExtension :=
           or_default (JsString.pop (JsString.split_dot defaultImagePath)) "png" in
         let defaultContentType := getMimeType fileExtension in
         lift (image_response defaultImageBuffer defaultContentType)
     end)
    (fun e => ret (image_catch e)).

End ImageRoute.

(** ** The coordinator behind the application *)

(** Modelled from the spec: what the service needs besides the
    coordinator's own state: the clock, and how the provider call for a
    network begins. *)
Record ServiceWorld : Type := {
  coordinator : State;
  clock : Z;
  provider : N -> ProviderLaunch;
}.

(** Modelled from the spec: the value handed to the HTTP layer for each
    SyncOutcome (section 6): the job record, or the rate-limit object. *)
Definition start_result_of (o : SyncOutcome) : StartResult :=
  match o with
  | Started job | AlreadyRunning job => JobRecord job
  | RateLimited networkId remainingTime message =>
      RateLimit {| rateLimited := true;
                   rl_chainId := networkId;
                   rl_remainingTime := remainingTime;
                   rl_message := message |}
  end.

(** Modelled from the spec: the service of section 6 on top of the
    coordinator: [getSyncStatus] is [getStatus], [startSync] is [start]
    at the current time. *)
Definition coordinator_service (cooldownDuration : Z) (describe : N -> Z -> string)
  : SyncService :=
  {| SyncWorld := ServiceWorld;
     getSyncStatus := fun chainId w => (Ok (getStatus chainId (coordinator w)), w);
     startSync := fun chainId w =>
       let '(o, s') :=
         start cooldownDuration describe chainId (clock w) (provider w chainId)
           (coordinator w) in
       (Ok (start_result_of o),
        {| coordinator := s'; clock := clock w; provider := provider w |}) |}.

(** ** A small deployment, for the examples *)

Module Demo.

Definition describe (networkId : N) (remainingTime : Z) : string :=
  "Rate limit exceeded for chain " +:+ pretty networkId
  +:+ ". Try again in " +:+ pretty remainingTime +:+ " ms".

Definition platform : Platform :=
  {| join := String.concat "/";
     cwd := "/app";
     Number_toString := pretty;
     isAddress := fun s => (String.length s =? 42)%nat && JsString.startsWith "0x" s;
     Function_toString := fun name => "function " +:+ name +:+ "() { [native code] }" |}.

Definition usdc : string := "0x833589fCD6eDb6E08f4c7C32D4f71b54bdA02913".

Definition png_bytes : bytes := [Byte.x89; Byte.x50; Byte.x4e; Byte.x47].

(** One object in the bucket, an empty images directory but for the
    placeholder. *)
Definition storage : Storage :=
  {| StorageWorld := unit;
     s3_get := fun _ key w =>
       if String.eqb key "8453/0x833589fcd6edb6e08f4c7c32d4f71b54bda02913/image"
       then (Ok {| Body := Some (StreamOpens
                             (ReadChunk [Byte.x89; Byte.x50]
                                (ReadChunk [Byte.x4e; Byte.x47] ReadDone)));
                   ContentType := Some "image/png";
                   Metadata := Some [("extension", "png")] |}, w)
       else (Throw (Error "NoSuchKey"), w);
     s3_head := fun _ key w =>
       if String.eqb key "8453/0x833589fcd6edb6e08f4c7c32d4f71b54bda02913/image"
       then (Ok tt, w)
       else (Throw (Error "NotFound"), w);
     readdir := fun _ w => (Throw (Error "ENOENT"), w);
     readFile := fun path w =>
       if String.eqb path "/app/images/default.png" then (Ok png_bytes, w)
       else (Throw (Error "ENOENT"), w) |}.

Definition service : SyncService := coordinator_service 60000 describe.

Definition world (s : State) (now : Z) : ServiceWorld :=
  {| coordinator := s; clock := now; provider := fun _ => Launches |}.

(** Chain 8453 started at time 0. *)
Definition started : State :=
  snd (start 60000 describe 8453 0 Launches initial).

(** Its provider call completed one second later. *)
Definition completed : State :=
  complete 8453 (Succeeds "ok") 1000 started.

Definition running_world : ServiceWorld := world started 10.

Definition cooling_world : ServiceWorld := world completed 30000.

End Demo.

(** ** image-s3-service.ts: uploadImageToS3 *)

(** The [metadata] argument of [uploadImageToS3]. *)
Record UploadMetadata : Type := {
  meta_provider : string;
  meta_downloadDate : string;
  meta_originalUrl : option string;
}.

(** The input of the [PutObjectCommand]. *)
Record PutObject : Type := {
  put_Bucket : string;
  put_Key : string;
  put_Body : bytes;
  put_ContentType : JsValue;
  put_Metadata : list (string * string);
}.

(** [s3Client.send] for a PutObject command. *)
Class ObjectWriter `{Storage} : Type := {
  s3_put : PutObject -> StorageWorld -> Outcome unit * StorageWorld;
}.

Section Upload.
Context `{Platform} `{Storage} `{!ObjectWriter}.

(** [...(metadata.originalUrl && { originalUrl: metadata.originalUrl })] *)
Definition spread_originalUrl (metadata : UploadMetadata) : list (string * string) :=
  match if_truthy (meta_originalUrl metadata) with
  | Some url => [("originalUrl", url)]
  | None => []
  end.

(** The command [uploadImageToS3] builds. *)
Definition put_command (chainId : N) (address : string) (imageBuffer : bytes)
    (extension : string) (metadata : UploadMetadata) : PutObject :=
  {| put_Bucket := BUCKET_NAME;
     put_Key := object_key chainId address;
     put_Body := imageBuffer;
     put_ContentType := getMimeType extension;
     put_Metadata :=
       ([ ("extension", extension);
          ("provider", meta_provider metadata);
          ("downloadDate", meta_downloadDate metadata) ]
        ++ spread_originalUrl metadata)%list |}.

(** [await s3Client.send(putCommand)].  The trace lists the requests
    that read; a write shows in the world. *)
Definition send_put (command : PutObject) : Eff StorageWorld unit :=
  fun '(trace, w) => let '(o, w') := s3_put command w in (o, (trace, w')).

Definition uploadImageToS3 (chainId : N) (address : string) (imageBuffer : bytes)
    (extension : string) (metadata : UploadMetadata) : Eff StorageWorld bool :=
  try_catch
    (let putCommand := put_command chainId address imageBuffer extension metadata in
     let* _ := send_put putCommand in
     ret true)
    (fun _ => ret false).

End Upload.

(** A GetObject response for the object a command stored: the body
    yields the bytes of the command, the content type is the one it
    gave, and the metadata holds the extension it gave. *)
Definition response_of_put (response : S3Response) (command : PutObject) : Prop :=
  (exists reader chunks,
      Body response = Some (StreamOpens reader) /\
      read_chunks reader [] = Ok chunks /\
      concat chunks = put_Body command) /\
  (forall s, put_ContentType command = VString s -> ContentType response = Some s) /\
  (exists metadata,
      Metadata response = Some metadata /\
      own_property metadata "extension"
      = own_property (put_Metadata command) "extension").

(** Whether a string has a dot. *)
Fixpoint has_dot (s : string) : bool :=
  match s with
  | EmptyString => false
  | String c rest => Ascii.eqb c "."%char || has_dot rest
  end.

(** Whether a character is a decimal digit. *)
Definition is_decimal_digit (c : ascii) : bool :=
  match JsNumberOps.digit_value 10 c with
  | Some _ => true
  | None => false
  end.

Definition decimal_digit (c : ascii) : Prop := is_decimal_digit c = true.

(** The HeadObject request [checkImageExistsInS3] sends for a token. *)
Definition head_request `{Platform} (token : Token) : Call :=
  S3HeadObject BUCKET_NAME (object_key (token_chainId token) (token_address token)).

(** ** More of the small deployment *)

Module DemoStore.

(** A bucket in memory: what was put under a key is what a get of that
    key returns, in one chunk. *)
Definition storage : Storage :=
  {| StorageWorld := list (string * PutObject);
     s3_get := fun _ key w =>
       match own_property w key with
       | Some command =>
           (Ok {| Body := Some (StreamOpens (ReadChunk (put_Body command) ReadDone));
                  ContentType := match put_ContentType command with
                                 | VString s => Some s
                                 | _ => None
                                 end;
                  Metadata := Some (put_Metadata command) |}, w)
       | None => (Throw (Error "NoSuchKey"), w)
       end;
     s3_head := fun _ key w =>
       match own_property w key with
       | Some _ => (Ok tt, w)
       | None => (Throw (Error "NotFound"), w)
       end;
     readdir := fun _ w => (Throw (Error "ENOENT"), w);
     readFile := fun _ w => (Throw (Error "ENOENT"), w) |}.

Definition writer : @ObjectWriter storage :=
  {| s3_put := fun command (w : @StorageWorld storage) =>
       (Ok tt, (put_Key command, command) :: w) |}.

Definition usdc_lower : string := "0x833589fcd6edb6e08f4c7c32d4f71b54bda02913".

Definition usdc_key : string := "8453/0x833589fcd6edb6e08f4c7c32d4f71b54bda02913/image".

Definition metadata : UploadMetadata :=
  {| meta_provider := "coingecko";
     meta_downloadDate := "2025-01-01";
     meta_originalUrl := Some "https://example.org/usdc.svg" |}.

(** A token directory with three candidates, and no bucket. *)
Definition disk : Storage :=
  {| StorageWorld := unit;
     s3_get := fun _ _ w => (Throw (Error "NoSuchKey"), w);
     s3_head := fun _ _ w => (Throw (Error "NotFound"), w);
     readdir := fun _ w => (Ok ["image.svg"; "image.jpg"; "image.png"; "notes.txt"], w);
     readFile := fun _ w => (Ok Demo.png_bytes, w) |}.

(** A token directory without a png. *)
Definition disk_jpg : Storage :=
  {| StorageWorld := unit;
     s3_get := fun _ _ w => (Throw (Error "NoSuchKey"), w);
     s3_head := fun _ _ w => (Throw (Error "NotFound"), w);
     readdir := fun _ w => (Ok ["image.svg"; "image.jpg"; "notes.txt"], w);
     readFile := fun _ w => (Ok Demo.png_bytes, w) |}.

(** A token directory without an image, and no placeholder. *)
Definition disk_empty : Storage :=
  {| StorageWorld := unit;
     s3_get := fun _ _ w => (Throw (Error "NoSuchKey"), w);
     s3_head := fun _ _ w => (Throw (Error "NotFound"), w);
     readdir := fun _ w => (Ok ["notes.txt"; "logo.png"], w);
     readFile := fun _ w => (Throw (Error "ENOENT"), w) |}.

(** A bucket whose object breaks off after its first chunk. *)
Definition broken : Storage :=
  {| StorageWorld := unit;
     s3_get := fun _ _ w =>
       (Ok {| Body := Some (StreamOpens
                              (ReadChunk [Byte.x89; Byte.x50]
                                 (ReadFail (Error "ECONNRESET"))));
              ContentType := Some "image/png";
              Metadata := None |}, w);
     s3_head := fun _ _ w => (Ok tt, w);
     readdir := fun _ w => (Throw (Error "ENOENT"), w);
     readFile := fun _ w => (Throw (Error "ENOENT"), w) |}.


(** A service whose calls fail. *)
Definition failing_service : SyncService :=
  {| SyncWorld := unit;
     getSyncStatus := fun _ w => (Ok None, w);
     startSync := fun _ w => (Throw (Error "provider unreachable"), w) |}.

End DemoStore.

(** * Properties *)

(** ** getMimeType *)

Section MimeProperties.

Lemma lower_unit_idempotent (c : ascii) :
  JsString.lower_unit (JsString.lower_unit c) = JsString.lower_unit c.
Proof.
  destruct c as [[] [] [] [] [] [] [] []]; reflexivity.
Qed.

Lemma toLowerCase_idempotent (s : string) :
  JsString.toLowerCase (JsString.toLowerCase s) = JsString.toLowerCase s.
Proof.
  induction s as [| c s IH]; simpl; [reflexivity |].
  now rewrite lower_unit_idempotent, IH.
Qed.

Lemma lower_unit_dot (c : ascii) :
  Ascii.eqb "."%char (JsString.lower_unit c) = Ascii.eqb "."%char c.
Proof.
  destruct c as [[] [] [] [] [] [] [] []]; reflexivity.
Qed.

(** Lower-casing neither adds nor removes a leading dot, and commutes
    with dropping it. *)
Lemma cleanExtension_toLowerCase (e : string) :
  cleanExtension (JsString.toLowerCase e) = JsString.toLowerCase (cleanExtension e).
Proof.
  unfold cleanExtension.
  destruct e as [| c e]; [reflexivity |].
  cbn [JsString.toLowerCase JsString.startsWith JsString.slice1].
  rewrite lower_unit_dot.
  destruct (Ascii.eqb "."%char c); reflexivity.
Qed.

(** X1: a leading dot makes no difference: for an extension without
    one, [getMimeType] answers the same with the dot put in front. *)
Lemma getMimeType_leading_dot (e : string) :
  JsString.startsWith "." e = false ->
  getMimeType ("." +:+ e) = getMimeType e.
Proof.
  intros Hdot. unfold getMimeType, cleanExtension.
  rewrite Hdot.
  replace (JsString.startsWith "." ("." +:+ e)) with true.
  - reflexivity.
  - reflexivity.
Qed.

(** X2: case makes no difference: [getMimeType] answers the same for
    an extension and for its lower-case form. *)
Lemma getMimeType_toLowerCase (e : string) :
  getMimeType (JsString.toLowerCase e) = getMimeType e.
Proof.
  unfold getMimeType.
  now rewrite cleanExtension_toLowerCase, toLowerCase_idempotent.
Qed.

(** The ten extensions of the table. *)
Lemma getMimeType_table :
  getMimeType "png" = VString "image/png" /\
  getMimeType "jpg" = VString "image/jpeg" /\
  getMimeType "jpeg" = VString "image/jpeg" /\
  getMimeType "webp" = VString "image/webp" /\
  getMimeType "svg" = VString "image/svg+xml" /\
  getMimeType "gif" = VString "image/gif" /\
  getMimeType "bmp" = VString "image/bmp" /\
  getMimeType "ico" = VString "image/x-icon" /\
  getMimeType "tiff" = VString "image/tiff" /\
  getMimeType "tif" = VString "image/tiff".
Proof. repeat split; reflexivity. Qed.

(** A key found neither in the table nor on [Object.prototype] gets
    the default type. *)
Lemma getMimeType_default (e : string) :
  let key := JsString.toLowerCase (cleanExtension e) in
  own_property mimeTypes key = None ->
  own_property ObjectPrototype key = None ->
  getMimeType e = VString octet_stream.
Proof.
  intros key Hown Hproto. unfold getMimeType, get_property.
  fold key. now rewrite Hown, Hproto.
Qed.

(** Every entry of the table is a non-empty string. *)
Lemma getMimeType_own (e s : string) :
  own_property mimeTypes (JsString.toLowerCase (cleanExtension e)) = Some s ->
  getMimeType e = VString s /\ s <> "".
Proof.
  unfold getMimeType, get_property.
  generalize (JsString.toLowerCase (cleanExtension e)) as key.
  intros key Hown. rewrite Hown.
  simpl in Hown.
  repeat match type of Hown with
         | (if ?b then _ else _) = _ => destruct b
         end;
    inversion Hown; subst; split; (reflexivity || discriminate).
Qed.

(** C9: the extension [constructor] is not in the table, and
    [getMimeType] answers with the function every object literal
    inherits under that name, not with [application/octet-stream]
    and not with a string at all; [__proto__] behaves alike. *)
Theorem getMimeType_inherited_property :
  getMimeType "constructor" = VFunction "Object" /\
  is_string (getMimeType "constructor") = false /\
  getMimeType "__proto__" = VObject "Object.prototype" /\
  own_property mimeTypes "constructor" = None.
Proof. repeat split; reflexivity. Qed.

End MimeProperties.

(** ** The chainId parameter *)

Section SchemaProperties.

(** The transform only ever throws a plain [Error]: the ZodError
    branch of a [catch] is never reached through the chain id. *)
Lemma chainId_transform_throws_Error (val : string) (e : Exn) :
  chainId_transform val = Throw e ->
  exists message, e = Error message.
Proof.
  unfold chainId_transform.
  destruct (_ || _ || _); [| discriminate].
  intros [= <-]. eauto.
Qed.

Lemma chainId_transform_accepts (val : string) (chainId : N) :
  chainId_transform val = Ok chainId ->
  let num := JsNumberOps.Number val in
  JsNumberOps.isNaN num = false /\
  JsNumberOps.isInteger num = true /\
  JsNumberOps.lt_zero num = false /\
  chainId = JsNumberOps.to_N num.
Proof.
  unfold chainId_transform. cbn zeta.
  destruct (JsNumberOps.isNaN _), (JsNumberOps.isInteger _), (JsNumberOps.lt_zero _);
    cbn; try discriminate.
  intros [= <-]. auto.
Qed.

(** [Number] on a few strings: a decimal fraction, a tie that rounds to
    even, a hexadecimal literal, surrounding white space, an exponent,
    and strings that are no numbers. *)
Example Number_tenth :
  JsNumberOps.Number "0.1" = Finite false 7205759403792794 (-56).
Proof. reflexivity. Qed.

Example Number_tie_to_even :
  JsNumberOps.to_N (JsNumberOps.Number "9007199254740993") = 9007199254740992%N.
Proof. reflexivity. Qed.

Example Number_hexadecimal :
  JsNumberOps.to_N (JsNumberOps.Number "0x1F") = 31%N.
Proof. reflexivity. Qed.

Example Number_trims : JsNumberOps.to_N (JsNumberOps.Number " 12 ") = 12%N.
Proof. reflexivity. Qed.

Example Number_exponent : JsNumberOps.to_N (JsNumberOps.Number "1e3") = 1000%N.
Proof. reflexivity. Qed.

Example Number_overflow : JsNumberOps.Number "1.7976931348623159e308" = Infinity false.
Proof. reflexivity. Qed.

Example Number_not_a_number :
  JsNumberOps.Number "abc" = NaN /\ JsNumberOps.Number "12abc" = NaN /\
  JsNumberOps.Number "1e" = NaN /\ JsNumberOps.Number "." = NaN /\
  JsNumberOps.Number "-0x1F" = NaN.
Proof. repeat split; reflexivity. Qed.

Example chainId_transform_decimal : chainId_transform "8453" = Ok 8453%N.
Proof. reflexivity. Qed.

Example chainId_transform_negative :
  chainId_transform "-1"
  = Throw (Error "chainId must be a valid positive integer value: -1").
Proof. reflexivity. Qed.

Example chainId_transform_fraction :
  chainId_transform "1.5"
  = Throw (Error "chainId must be a valid positive integer value: 1.5").
Proof. reflexivity. Qed.

End SchemaProperties.

(** ** The sync routes *)

Section SyncRouteProperties.
Context `{Platform} `{SyncService}.

(** A chain id the schema rejects ends both routes in their [catch]
    clause before any call to the service. *)
Lemma sync_routes_on_rejected_chainId (param : string) (e : Exn)
    (st : list Call * SyncWorld) :
  syncParamsSchema_parse param = Throw e ->
  sync_route param st = (Ok (sync_catch e), st) /\
  sync_status_route param st = (Ok (sync_catch e), st).
Proof.
  intros Hparse.
  unfold sync_route, sync_status_route, try_catch, bind, lift, ret.
  rewrite Hparse. split; reflexivity.
Qed.

(** A rejected chain id is answered with status 500, never 4xx. *)
Lemma sync_routes_rejected_chainId_status (param : string) (e : Exn)
    (st : list Call * SyncWorld) :
  syncParamsSchema_parse param = Throw e ->
  exists r1 r2,
    sync_route param st = (Ok r1, st) /\
    sync_status_route param st = (Ok r2, st) /\
    response_status r1 = 500%N /\ response_status r2 = 500%N.
Proof.
  intros Hparse.
  destruct (sync_routes_on_rejected_chainId param e st Hparse) as [H1 H2].
  destruct (chainId_transform_throws_Error param e Hparse) as [message ->].
  eauto 10.
Qed.

(** C3: for the chain id [abc], which is no number, both sync routes
    answer with status 500 and the body of an internal error; the 400
    answer with validation details is not produced.  The service is
    not called: trace and world are as before. *)
Theorem sync_routes_malformed_chainId (st : list Call * SyncWorld) :
  let body :=
    JObject [ ("error", JString "Internal server error");
              ("message",
               JString "chainId must be a valid positive integer value: abc") ] in
  sync_route "abc" st = (Ok (JsonResponse 500 body), st) /\
  sync_status_route "abc" st = (Ok (JsonResponse 500 body), st).
Proof.
  cbn zeta.
  apply (sync_routes_on_rejected_chainId "abc"
           (Error "chainId must be a valid positive integer value: abc") st).
  reflexivity.
Qed.

(** C4: when [getSyncStatus] returns a record that is running, the
    route answers 200 with that record; its only call is
    [getSyncStatus], and the world is as that call left it, so
    [startSync] has not run. *)
Theorem sync_route_returns_running_job (param : string) (chainId : N)
    (trace : list Call) (w w' : SyncWorld) (job : SyncJob) :
  syncParamsSchema_parse param = Ok chainId ->
  getSyncStatus chainId w = (Ok (Some job), w') ->
  status job = running ->
  sync_route param (trace, w)
  = (Ok (JsonResponse 200 (JObject [ ("success", JBool true); ("data", JJob job) ])),
     ((trace ++ [SyncGetStatus chainId])%list, w')).
Proof.
  intros Hparse Hstatus Hrunning.
  unfold sync_route, try_catch, bind, lift, ret, call.
  rewrite Hparse, Hstatus. cbn.
  now rewrite Hrunning.
Qed.

(** C5: with no running job, the route calls [startSync] and maps
    what it resolves to: a rate-limit rejection to 429 with
    [rateLimited: true], the chain id, the remaining time and the
    message; anything else to 200 with the result, the job record, as
    data. *)
Theorem sync_route_maps_start_result (param : string) (chainId : N)
    (trace : list Call) (w w1 w2 : SyncWorld) (existingStatus : option SyncJob)
    (syncResult : StartResult) :
  syncParamsSchema_parse param = Ok chainId ->
  getSyncStatus chainId w = (Ok existingStatus, w1) ->
  is_running existingStatus = false ->
  startSync chainId w1 = (Ok syncResult, w2) ->
  sync_route param (trace, w)
  = (Ok match syncResult with
        | RateLimit e =>
            if rateLimited e then
              JsonResponse 429
                (JObject [ ("success", JBool false);
                           ("error", JString "Rate limit exceeded");
                           ("data",
                            JObject [ ("rateLimited", JBool true);
                                      ("chainId", JNum (Z.of_N (rl_chainId e)));
                                      ("remainingTime", JNum (rl_remainingTime e));
                                      ("message", JString (rl_message e)) ]) ])
            else
              JsonResponse 200
                (JObject [ ("success", JBool true); ("data", json_of_rate_limit e) ])
        | JobRecord job =>
            JsonResponse 200 (JObject [ ("success", JBool true); ("data", JJob job) ])
        end,
     ((trace ++ [SyncGetStatus chainId; SyncStart chainId])%list, w2)).
Proof.
  intros Hparse Hstatus Hidle Hstart.
  unfold sync_route, try_catch, bind, lift, ret, call.
  rewrite Hparse, Hstatus. cbn.
  unfold is_running in Hidle.
  destruct (running_record existingStatus); [discriminate |].
  rewrite Hstart. cbn.
  rewrite <- app_assoc. cbn.
  destruct syncResult as [job | e]; cbn; [reflexivity |].
  destruct (rateLimited e); reflexivity.
Qed.

(** C6: the status route calls [getSyncStatus] and nothing else, and
    answers 200 with the record, or with [data: null] and a message
    when there is none; the world is as [getSyncStatus] left it. *)
Theorem sync_status_route_reads_only (param : string) (chainId : N)
    (trace : list Call) (w w' : SyncWorld) (syncStatus : option SyncJob) :
  syncParamsSchema_parse param = Ok chainId ->
  getSyncStatus chainId w = (Ok syncStatus, w') ->
  sync_status_route param (trace, w)
  = (Ok (JsonResponse 200
           match syncStatus with
           | Some job => JObject [ ("success", JBool true); ("data", JJob job) ]
           | None =>
               JObject [ ("success", JBool true);
                         ("data", JNull);
                         ("message",
                          JString ("No sync process found for chain "
                                   +:+ Number_toString chainId)) ]
           end),
     ((trace ++ [SyncGetStatus chainId])%list, w')).
Proof.
  intros Hparse Hstatus.
  unfold sync_status_route, try_catch, bind, lift, ret, call.
  rewrite Hparse, Hstatus. cbn.
  now destruct syncStatus.
Qed.

End SyncRouteProperties.

(** ** The image service *)

Section EffProperties.
Context {W A : Type}.

(** A [try] whose [catch] returns a value never throws. *)
Lemma try_catch_ret_total (body : Eff W A) (fallback : A) (st : list Call * W) :
  exists a st', try_catch body (fun _ => ret fallback) st = (Ok a, st').
Proof.
  unfold try_catch, ret.
  destruct (body st) as [[a | e] st']; eauto.
Qed.

End EffProperties.

Section BufferProperties.

Lemma fold_left_length (chunks : list bytes) (acc : nat) :
  fold_left (fun acc chunk => (acc + length chunk)%nat) chunks acc
  = (acc + length (concat chunks))%nat.
Proof.
  revert acc. induction chunks as [| c chunks IH]; intros acc; cbn.
  - lia.
  - rewrite IH, length_app. lia.
Qed.

(** The copy loop fills the zeroed tail of the buffer with the chunks. *)
Lemma copy_chunks_fills (chunks : list bytes) (filled : bytes) :
  copy_chunks chunks
    (filled ++ replicate (length (concat chunks)) Byte.x00)%list (length filled)
  = Ok (filled ++ concat chunks)%list.
Proof.
  revert filled. induction chunks as [| c chunks IH]; intros filled; cbn.
  - reflexivity.
  - unfold Uint8Array_set.
    rewrite !length_app, length_replicate.
    destruct (Nat.leb_spec (length filled + length c)
                (length filled + (length c + length (concat chunks)))) as [_ | Hlt];
      [| lia].
    cbn.
    rewrite take_app_length.
    rewrite drop_app_add', drop_replicate by reflexivity.
    replace (length c + length (concat chunks) - length c)%nat
      with (length (concat chunks)) by lia.
    rewrite (app_assoc filled c).
    rewrite <- (length_app filled c).
    rewrite IH. now rewrite <- app_assoc.
Qed.

(** The buffer of the payload is the bytes read, in order. *)
Lemma assemble_concat (chunks : list bytes) :
  assemble chunks = Ok (concat chunks).
Proof.
  unfold assemble. rewrite fold_left_length. cbn.
  apply (copy_chunks_fills chunks []).
Qed.

End BufferProperties.

Section ImageProperties.
Context `{Platform} `{Storage}.


(** A failed request is an absent image. *)
Lemma getImageFromS3_request_fails (chainId : N) (address : string)
    (trace : list Call) (w w' : StorageWorld) (e : Exn) :
  s3_get BUCKET_NAME (object_key chainId address) w = (Throw e, w') ->
  fst (getImageFromS3 chainId address (trace, w)) = Ok None.
Proof.
  intros Hget. unfold getImageFromS3, try_catch, bind, call, lift, ret.
  now rewrite Hget.
Qed.


(** C8: [getImageFromS3] and [getImageFromSourceDir] resolve to a
    payload or to [null] for every chain id and address and every
    behaviour of S3 and of the file system; neither throws. *)
Theorem image_lookups_never_throw (chainId : N) (address : string)
    (st : list Call * StorageWorld) :
  (exists (r : option StoredImage) st',
      getImageFromS3 chainId address st = (Ok r, st')) /\
  (exists (r : option StoredImage) st',
      getImageFromSourceDir chainId address st = (Ok r, st')).
Proof.
  split; apply try_catch_ret_total.
Qed.

(** What the route answers once it has an image: the response when
    [new Response] accepts the headers, the 500 of the [catch] clause
    when it throws. *)
Lemma image_response_answer (body : bytes) (type : JsValue) :
  match image_response body type with
  | Ok response => response
  | Throw e => image_catch e
  end
  = match header_value (value_text type),
          header_value (Number_toString (N.of_nat (length body))) with
    | Ok text, Ok len =>
        ImageResponse body
          [ ("Content-Type", VString text);
            ("Content-Length", VString len);
            ("Cache-Control", VString "public, max-age=86400") ]
    | _, _ => JsonResponse 500 (JObject [ ("error", JString "Internal server error") ])
    end.
Proof.
  unfold image_response, header_value.
  destruct (existsb _ (list_ascii_of_string (normalize_header_value (value_text type))));
    [reflexivity |].
  cbn [outcome_bind].
  destruct (existsb _ (list_ascii_of_string
                         (normalize_header_value
                            (Number_toString (N.of_nat (length body))))));
    reflexivity.
Qed.

(** The content types of the table, and the default, are header values
    as they stand. *)
Lemma header_value_mimeTypes :
  Forall (fun entry => header_value (snd entry) = Ok (snd entry)) mimeTypes /\
  header_value "application/octet-stream" = Ok "application/octet-stream".
Proof. split; [repeat constructor | reflexivity]. Qed.


End ImageProperties.

Section BulkCheckProperties.
Context `{Platform} `{Storage}.

(** A failed HeadObject request is an image that does not exist; the
    check itself resolves either way. *)
Lemma checkImageExistsInS3_run (chainId : N) (address : string)
    (trace : list Call) (w : StorageWorld) :
  let key := object_key chainId address in
  checkImageExistsInS3 chainId address (trace, w)
  = (Ok match fst (s3_head BUCKET_NAME key w) with
        | Ok _ => true
        | Throw _ => false
        end,
     ((trace ++ [S3HeadObject BUCKET_NAME key])%list,
      snd (s3_head BUCKET_NAME key w))).
Proof.
  cbn zeta. unfold checkImageExistsInS3, try_catch, bind, call, ret.
  now destruct (s3_head _ _ w) as [[[] | e] w'].
Qed.

Lemma check_token_run (token : Token) (st : list Call * StorageWorld) :
  exists found st',
    check_token token st
    = (Ok {| chainId := token_chainId token;
             address := token_address token;
             exists_ := found |}, st').
Proof.
  destruct st as [trace w]. unfold check_token, bind at 1.
  rewrite checkImageExistsInS3_run. cbn. eauto.
Qed.

Lemma check_token_result (token : Token) (trace : list Call) (w : StorageWorld) :
  let key := object_key (token_chainId token) (token_address token) in
  check_token token (trace, w)
  = (Ok {| chainId := token_chainId token;
           address := token_address token;
           exists_ := match fst (s3_head BUCKET_NAME key w) with
                      | Ok _ => true
                      | Throw _ => false
                      end |},
     ((trace ++ [head_request token])%list, snd (s3_head BUCKET_NAME key w))).
Proof.
  cbn zeta. unfold check_token, bind at 1.
  now rewrite checkImageExistsInS3_run.
Qed.

(** Every per-token promise fulfils, in the order of the tokens. *)
Lemma allSettled_check_tokens (tokens : list Token) (st : list Call * StorageWorld) :
  exists results st',
    allSettled (map check_token tokens) st = (Ok results, st') /\
    Forall2 (fun token result =>
               exists found,
                 result = Fulfilled {| chainId := token_chainId token;
                                       address := token_address token;
                                       exists_ := found |})
      tokens results.
Proof.
  revert st. induction tokens as [| token tokens IH]; intros st.
  - exists [], st. split; [reflexivity | constructor].
  - destruct (check_token_run token st) as (found & st1 & Hcheck).
    destruct (IH st1) as (results & st2 & Hrest & Hall).
    eexists (_ :: results), st2. split.
    + unfold allSettled in *. cbn [map sequence].
      unfold bind at 1. unfold settle at 1, try_catch, bind at 1.
      rewrite Hcheck. cbn. unfold bind at 1. rewrite Hrest. reflexivity.
    + constructor; eauto.
Qed.

(** The second [map] pairs the settled results with the tokens by
    index and stays within the array. *)
Lemma collect_from_zip (tokens : list Token) (results : list (Settled TokenCheck))
    (index : nat) :
  index + length results <= length tokens ->
  collect_from tokens index results
  = Ok (zip_with settled_check (drop index tokens) results).
Proof.
  revert index. induction results as [| result results IH]; intros index Hlen; cbn.
  - now destruct (drop index tokens).
  - cbn in Hlen. unfold collect_result.
    destruct (tokens !! index) as [token |] eqn:Htoken.
    + cbn. rewrite IH by lia. cbn.
      now rewrite (drop_S _ _ _ Htoken).
    + apply lookup_ge_None in Htoken. lia.
Qed.

(** The second [map] calls nothing: the bulk check leaves the trace and
    the world as the per-token checks left them. *)
Lemma bulkCheckImagesInS3_state (tokens : list Token) (st : list Call * StorageWorld) :
  snd (bulkCheckImagesInS3 tokens st) = snd (allSettled (map check_token tokens) st).
Proof.
  destruct (allSettled_check_tokens tokens st) as (results & st' & Hrun & Hall).
  pose proof (Forall2_length _ _ _ Hall) as Hlen.
  unfold bulkCheckImagesInS3, bind, lift. rewrite Hrun.
  now rewrite collect_from_zip by (cbn; lia).
Qed.

(** The check of the i-th token fulfils with the answer of its
    HeadObject request, sent to the bucket as the checks of the tokens
    before it left it. *)
Lemma allSettled_lookup (tokens : list Token) (st : list Call * StorageWorld)
    (i : nat) (token : Token) :
  tokens !! i = Some token ->
  exists results st',
    allSettled (map check_token tokens) st = (Ok results, st') /\
    results !! i
    = Some (Fulfilled
              {| chainId := token_chainId token;
                 address := token_address token;
                 exists_ :=
                   match fst (s3_head BUCKET_NAME
                                (object_key (token_chainId token) (token_address token))
                                (snd (snd (allSettled (map check_token (take i tokens))
                                             st)))) with
                   | Ok _ => true
                   | Throw _ => false
                   end |}).
Proof.
  revert st i. induction tokens as [| first tokens IH]; intros [trace w] i Htoken;
    [destruct i; discriminate |].
  destruct (allSettled_check_tokens (first :: tokens) (trace, w))
    as (results & st' & Hrun & _).
  exists results, st'. split; [exact Hrun |].
  unfold allSettled in *. cbn [map sequence] in Hrun.
  unfold bind at 1 in Hrun. unfold settle at 1, try_catch, bind at 1 in Hrun.
  rewrite check_token_result in Hrun. cbn [ret] in Hrun.
  unfold bind at 1 in Hrun.
  destruct i as [| i].
  - injection Htoken as ->.
    destruct (sequence _ _) as [[rest | e] st2]; [| discriminate].
    cbn in Hrun. injection Hrun as <- <-. reflexivity.
  - cbn in Htoken.
    destruct (IH (trace ++ [head_request first],
                  snd (s3_head BUCKET_NAME
                         (object_key (token_chainId first) (token_address first)) w))%list
                i Htoken)
      as (rest & st2 & Hrest & Hlookup).
    rewrite Hrest in Hrun. cbn in Hrun. injection Hrun as <- <-.
    rewrite lookup_cons, Hlookup.
    assert (Hstate :
              snd (sequence (map settle (map check_token (take (S i) (first :: tokens))))
                     (trace, w))
              = snd (sequence (map settle (map check_token (take i tokens)))
                       ((trace ++ [head_request first])%list,
                        snd (s3_head BUCKET_NAME
                               (object_key (token_chainId first) (token_address first))
                               w)))).
    { cbn [take map sequence].
      unfold bind at 1. unfold settle at 1, try_catch, bind at 1.
      rewrite check_token_result. cbn [ret].
      unfold bind at 1.
      destruct (allSettled_check_tokens (take i tokens)
                  ((trace ++ [head_request first])%list,
                   snd (s3_head BUCKET_NAME
                          (object_key (token_chainId first) (token_address first)) w)))
        as (before & st3 & Hbefore & _).
      unfold allSettled in Hbefore. rewrite Hbefore. reflexivity. }
    now rewrite Hstate.
Qed.

(** C10: [bulkCheckImagesInS3] resolves, to a list as long as its
    input.  Its i-th entry carries the chain id and the address of the
    i-th token, and its [exists] is read off the i-th settled result of
    the per-token checks of that very run: the value the check
    fulfilled with, and false when the check did not fulfil.  That
    value is true when the HeadObject request for the token's key
    resolves and false when it throws, in the bucket as the checks of
    the tokens before it left it.  The step that builds the entries
    does the same on any settled results, so a rejection at an index
    gives false at that index. *)
Theorem bulkCheckImagesInS3_keeps_tokens (tokens : list Token)
    (st : list Call * StorageWorld) :
  (exists results out st',
      allSettled (map check_token tokens) st = (Ok results, st') /\
      bulkCheckImagesInS3 tokens st = (Ok out, st') /\
      length out = length tokens /\
      forall i token,
        tokens !! i = Some token ->
        exists result found,
          results !! i = Some result /\
          result = Fulfilled {| chainId := token_chainId token;
                                address := token_address token;
                                exists_ := found |} /\
          found
          = match fst (s3_head "hypurrfi-token-imgs"
                         (Number_toString (token_chainId token) +:+ "/"
                          +:+ JsString.toLowerCase (token_address token) +:+ "/image")
                         (snd (snd (bulkCheckImagesInS3 (take i tokens) st)))) with
            | Ok _ => true
            | Throw _ => false
            end /\
          out !! i
          = Some {| chainId := token_chainId token;
                    address := token_address token;
                    exists_ := match result with
                               | Fulfilled value => exists_ value
                               | Rejected _ => false
                               end |}) /\
  (forall results : list (Settled TokenCheck),
      length results = length tokens ->
      exists out,
        collect_from tokens 0 results = Ok out /\
        length out = length tokens /\
        forall i token reason,
          tokens !! i = Some token ->
          results !! i = Some (Rejected reason) ->
          out !! i = Some {| chainId := token_chainId token;
                             address := token_address token;
                             exists_ := false |}).
Proof.
  split.
  - destruct (allSettled_check_tokens tokens st) as (results & st' & Hrun & Hall).
    pose proof (Forall2_length _ _ _ Hall) as Hlen.
    exists results, (zip_with settled_check tokens results), st'.
    split; [exact Hrun |]. split.
    + unfold bulkCheckImagesInS3, bind, lift. rewrite Hrun.
      rewrite collect_from_zip by (cbn; lia). now rewrite drop_0.
    + rewrite length_zip_with, <- Hlen, Nat.min_id.
      split; [reflexivity |].
      intros i token Htoken.
      destruct (allSettled_lookup tokens st i token Htoken)
        as (results' & st'' & Hrun' & Hresult).
      rewrite Hrun in Hrun'. injection Hrun' as <- <-.
      eexists _, _. split; [exact Hresult |]. split; [reflexivity |].
      split; [now rewrite bulkCheckImagesInS3_state |].
      rewrite lookup_zip_with, Htoken. cbn. now rewrite Hresult.
  - intros results Hlen.
    exists (zip_with settled_check tokens results). split.
    + rewrite collect_from_zip by (cbn; lia). now rewrite drop_0.
    + rewrite length_zip_with, Hlen, Nat.min_id. split; [reflexivity |].
      intros i token reason Htoken Hresult.
      rewrite lookup_zip_with, Htoken. cbn. now rewrite Hresult.
Qed.

End BulkCheckProperties.

(** ** The sync coordinator *)

Module CoordinatorProperties.
Import Coordinator.

Section Counting.

Lemma running_count_cons (n n0 : N) (calls : list N) :
  length (filter (fun k => k = n) (n0 :: calls))
  = ((if decide (n0 = n) then 1 else 0)
     + length (filter (fun k => k = n) calls))%nat.
Proof.
  rewrite filter_cons. now destruct (decide (n0 = n)).
Qed.

Lemma running_count_remove_one (n n0 : N) (calls : list N) :
  length (filter (fun k => k = n) (remove_one n0 calls))
  = if decide (n = n0)
    then Nat.pred (length (filter (fun k => k = n) calls))
    else length (filter (fun k => k = n) calls).
Proof.
  induction calls as [| a calls IH]; cbn [remove_one].
  - now destruct (decide (n = n0)).
  - destruct (N.eqb_spec a n0) as [-> | Hne].
    + rewrite running_count_cons.
      destruct (decide (n = n0)) as [-> | Hn].
      * now rewrite decide_True.
      * now rewrite decide_False by congruence.
    + rewrite !running_count_cons, IH.
      destruct (decide (n = n0)) as [-> | Hn].
      * now rewrite decide_False by congruence.
      * reflexivity.
Qed.

Lemma running_count_elem_of (n : N) (calls : list N) :
  n ∈ calls -> (1 <= length (filter (fun k => k = n) calls))%nat.
Proof.
  induction calls as [| a calls IH]; intros Hin.
  - now apply elem_of_nil in Hin.
  - rewrite running_count_cons.
    apply elem_of_cons in Hin as [Heq | Hin].
    + rewrite decide_True by congruence. lia.
    + specialize (IH Hin). lia.
Qed.

End Counting.

Section Invariant.
Variable cooldownDuration : Z.
Variable describe : N -> Z -> string.

Local Abbreviation start := (start cooldownDuration describe).

Lemma consistent_initial : consistent initial.
Proof. intros n. reflexivity. Qed.

Lemma is_running_finish (r : ProviderResult) (now : Z) (job : option SyncJob) :
  is_running (finish r now <$> job) = false.
Proof. destruct job as [job |], r; reflexivity. Qed.

(** A start on a network whose job is running changes nothing. *)
Lemma start_running (n : N) (now : Z) (p : ProviderLaunch) (s : State)
    (job : SyncJob) :
  jobs s !! n = Some job -> status job = running ->
  start n now p s = (AlreadyRunning job, s).
Proof.
  intros Hjob Hstatus. unfold Coordinator.start, running_record.
  now rewrite Hjob, Hstatus.
Qed.

(** A start within the cooldown, with no job running, is denied and
    changes nothing. *)
Lemma start_denied (n : N) (now lastAttemptAt : Z) (p : ProviderLaunch) (s : State) :
  is_running (jobs s !! n) = false ->
  limits s !! n = Some lastAttemptAt ->
  (now - lastAttemptAt < cooldownDuration)%Z ->
  let remainingTime := (cooldownDuration - (now - lastAttemptAt))%Z in
  start n now p s = (RateLimited n remainingTime (describe n remainingTime), s).
Proof.
  intros Hidle Hlast Hwindow. cbn zeta.
  unfold Coordinator.start, checkAndRecord. unfold is_running in Hidle.
  destruct (running_record (jobs s !! n)); [discriminate |].
  rewrite Hlast.
  destruct (Z.leb_spec cooldownDuration (now - lastAttemptAt)); [lia | reflexivity].
Qed.

(** A start exactly at cooldown expiry, or the first ever for a
    network, is not denied. *)
Lemma start_allowed (n : N) (now : Z) (p : ProviderLaunch) (s : State) :
  is_running (jobs s !! n) = false ->
  match limits s !! n with
  | Some lastAttemptAt => (lastAttemptAt + cooldownDuration <= now)%Z
  | None => True
  end ->
  exists job, fst (start n now p s) = Started job.
Proof.
  intros Hidle Hexpired.
  unfold Coordinator.start, checkAndRecord, compareAndSetRunning.
  rewrite Hidle. unfold is_running in Hidle.
  destruct (running_record (jobs s !! n)); [discriminate |].
  destruct (limits s !! n) as [lastAttemptAt |].
  - destruct (Z.leb_spec cooldownDuration (now - lastAttemptAt)); [| lia].
    destruct p; cbn; eauto.
  - destruct p; cbn; eauto.
Qed.

(** An accepted start records its time as the last attempt. *)
Lemma start_Started_records (n : N) (now : Z) (p : ProviderLaunch) (s s' : State)
    (job : SyncJob) :
  start n now p s = (Started job, s') ->
  limits s' !! n = Some now.
Proof.
  unfold Coordinator.start, checkAndRecord, compareAndSetRunning.
  destruct (running_record (jobs s !! n)) eqn:Hrec; [discriminate |].
  unfold is_running. rewrite Hrec.
  destruct (limits s !! n) as [lastAttemptAt |];
    [destruct (cooldownDuration <=? now - lastAttemptAt)%Z; [| discriminate] |];
    destruct p; intros [= <- <-]; cbn; apply lookup_insert_eq.
Qed.

(** What happens to one network leaves the last attempt of another
    as it was. *)
Lemma start_limits_other (n n0 : N) (now : Z) (p : ProviderLaunch) (s : State) :
  n0 <> n ->
  limits (snd (start n0 now p s)) !! n = limits s !! n.
Proof.
  intros Hne. unfold Coordinator.start, checkAndRecord, compareAndSetRunning.
  destruct (running_record (jobs s !! n0)) eqn:Hrec; [reflexivity |].
  unfold is_running. rewrite Hrec.
  destruct (limits s !! n0) as [lastAttemptAt |];
    [destruct (cooldownDuration <=? now - lastAttemptAt)%Z; [| reflexivity] |];
    destruct p; cbn; now rewrite lookup_insert_ne.
Qed.

Lemma apply_event_limits (n : N) (ev : Event) (s s' : State) :
  starts n ev = false ->
  apply_event cooldownDuration describe ev s = Some s' ->
  limits s' !! n = limits s !! n.
Proof.
  destruct ev as [n0 | n0 now p | n0 r now]; cbn.
  - now intros _ [= <-].
  - intros Hne [= <-]. apply start_limits_other.
    now apply N.eqb_neq in Hne.
  - intros _. destruct (decide (n0 ∈ inflight s)); [| discriminate].
    now intros [= <-].
Qed.

Lemma run_limits (n : N) (events : list Event) (s s' : State) :
  forallb (fun ev => negb (starts n ev)) events = true ->
  run cooldownDuration describe events s = Some s' ->
  limits s' !! n = limits s !! n.
Proof.
  revert s. induction events as [| ev events IH]; intros s; cbn.
  - now intros _ [= <-].
  - intros [Hev Hrest]%andb_prop.
    destruct (apply_event cooldownDuration describe ev s) as [s1 |] eqn:Hstep;
      [| discriminate].
    intros Hrun. rewrite (IH s1 Hrest Hrun).
    apply (apply_event_limits n ev s s1); [| exact Hstep].
    now apply negb_true_iff.
Qed.

Lemma start_consistent (n0 : N) (now : Z) (p : ProviderLaunch) (s : State) :
  consistent s -> consistent (snd (start n0 now p s)).
Proof.
  intros Hs. unfold Coordinator.start, checkAndRecord, compareAndSetRunning.
  destruct (running_record (jobs s !! n0)) eqn:Hrec; [exact Hs |].
  assert (Hidle : is_running (jobs s !! n0) = false)
    by (unfold is_running; now rewrite Hrec).
  rewrite Hidle.
  assert (Hlaunch : forall limits',
             consistent {| jobs := <[n0 := running_job now]> (jobs s);
                           limits := limits';
                           inflight := n0 :: inflight s |}).
  { intros limits' n. unfold running_count. cbn [jobs inflight].
    rewrite running_count_cons. specialize (Hs n). unfold running_count in Hs.
    destruct (decide (n0 = n)) as [<- | Hne].
    - rewrite lookup_insert_eq, Hs, Hidle. reflexivity.
    - rewrite lookup_insert_ne by exact Hne. exact Hs. }
  assert (Hthrow : forall limits' description,
             consistent {| jobs := <[n0 := failed_job now now description]>
                                     (<[n0 := running_job now]> (jobs s));
                           limits := limits';
                           inflight := inflight s |}).
  { intros limits' description n. unfold running_count. cbn [jobs inflight].
    specialize (Hs n). unfold running_count in Hs.
    destruct (decide (n0 = n)) as [<- | Hne].
    - rewrite lookup_insert_eq, Hs, Hidle. reflexivity.
    - rewrite !lookup_insert_ne by exact Hne. exact Hs. }
  destruct (limits s !! n0) as [lastAttemptAt |];
    [destruct (cooldownDuration <=? now - lastAttemptAt)%Z; [| exact Hs] |];
    destruct p; cbn [snd]; auto.
Qed.

Lemma complete_consistent (n0 : N) (r : ProviderResult) (now : Z) (s : State) :
  consistent s -> n0 ∈ inflight s -> consistent (complete n0 r now s).
Proof.
  intros Hs Hin n. unfold running_count, Coordinator.complete. cbn [jobs inflight].
  rewrite running_count_remove_one. specialize (Hs n). unfold running_count in Hs.
  destruct (decide (n = n0)) as [-> | Hne].
  - rewrite lookup_alter_eq, is_running_finish, Hs.
    now destruct (is_running (jobs s !! n0)).
  - rewrite lookup_alter_ne by congruence. exact Hs.
Qed.

Lemma atomic_event_consistent (ev : Event) (s s' : State) :
  consistent s ->
  apply_event cooldownDuration describe ev s = Some s' ->
  consistent s'.
Proof.
  intros Hs. destruct ev as [n0 | n0 now p | n0 r now]; cbn.
  - now intros [= <-].
  - intros [= <-]. now apply start_consistent.
  - destruct (decide (n0 ∈ inflight s)); [| discriminate].
    intros [= <-]. now apply complete_consistent.
Qed.

Lemma atomic_run_consistent (events : list Event) (s s' : State) :
  consistent s ->
  run cooldownDuration describe events s = Some s' ->
  consistent s'.
Proof.
  revert s. induction events as [| ev events IH]; intros s Hs; cbn.
  - now intros [= <-].
  - destruct (apply_event cooldownDuration describe ev s) as [s1 |] eqn:Hstep;
      [| discriminate].
    apply IH. eapply atomic_event_consistent; eauto.
Qed.

(** With every [start] run as one step, the provider calls under way
    for a network are at most one. *)
Lemma atomic_single_runner (events : list Event) (s : State) (n : N) :
  run cooldownDuration describe events initial = Some s ->
  (running_count n s <= 1)%nat /\
  (running_count n s = 1%nat <-> is_running (jobs s !! n) = true).
Proof.
  intros Hrun.
  pose proof (atomic_run_consistent events initial s consistent_initial Hrun n) as Hn.
  rewrite Hn. destruct (is_running (jobs s !! n)); split; try lia; split; congruence.
Qed.

(** C1: a start for [n] is accepted at [t0]; then anything but a
    start for [n] happens; a second start for [n] comes within the
    cooldown of the first, when no job for [n] is running.  The
    second call is rate limited, its remaining time is the cooldown
    less the time since the last attempt, which is [t0], and lies in
    (0, cooldown]; the coordinator is unchanged. *)
Theorem start_twice_within_cooldown (n : N) (t0 t1 : Z) (p0 p1 : ProviderLaunch)
    (s s1 s2 : State) (job : SyncJob) (events : list Event) :
  start n t0 p0 s = (Started job, s1) ->
  run cooldownDuration describe events s1 = Some s2 ->
  forallb (fun ev => negb (starts n ev)) events = true ->
  is_running (jobs s2 !! n) = false ->
  (t0 <= t1 < t0 + cooldownDuration)%Z ->
  let remainingTime := (cooldownDuration - (t1 - t0))%Z in
  limits s2 !! n = Some t0 /\
  start n t1 p1 s2 = (RateLimited n remainingTime (describe n remainingTime), s2) /\
  (0 < remainingTime <= cooldownDuration)%Z.
Proof.
  intros Hfirst Hrun Hothers Hidle Hwindow. cbn zeta.
  assert (Hlast : limits s2 !! n = Some t0).
  { rewrite (run_limits n events s1 s2 Hothers Hrun).
    eapply start_Started_records; eauto. }
  split; [exact Hlast |]. split; [| lia].
  apply start_denied; [exact Hidle | exact Hlast | lia].
Qed.

End Invariant.

End CoordinatorProperties.

(** ** The application on top of the coordinator *)

Section CoordinatorServiceProperties.
Variable cooldownDuration : Z.
Variable describe : N -> Z -> string.

Local Abbreviation service := (coordinator_service cooldownDuration describe).

(** Reading the status through the service changes nothing. *)
Lemma coordinator_getSyncStatus_pure (chainId : N) (w : ServiceWorld) :
  @getSyncStatus service chainId w = (Ok (getStatus chainId (coordinator w)), w).
Proof. reflexivity. Qed.

(** The status route leaves the coordinator as it found it. *)
Lemma sync_status_route_world `{Platform} (param : string) (chainId : N)
    (trace : list Call) (w : ServiceWorld) :
  syncParamsSchema_parse param = Ok chainId ->
  snd (@sync_status_route _ service param (trace, w))
  = ((trace ++ [SyncGetStatus chainId])%list, w).
Proof.
  intros Hparse.
  unfold sync_status_route, try_catch, bind, lift, ret, call.
  rewrite Hparse. cbn.
  now destruct (getStatus chainId (coordinator w)).
Qed.

(** The sync route leaves the coordinator as it found it when a job
    for the chain is running. *)
Lemma sync_route_running_world (param : string) (chainId : N)
    (trace : list Call) (w : ServiceWorld) (job : SyncJob) :
  syncParamsSchema_parse param = Ok chainId ->
  getStatus chainId (coordinator w) = Some job ->
  status job = running ->
  snd (@sync_route service param (trace, w))
  = ((trace ++ [SyncGetStatus chainId])%list, w).
Proof.
  intros Hparse Hjob Hrunning.
  unfold sync_route, try_catch, bind, lift, ret, call.
  rewrite Hparse. cbn. rewrite Hjob. cbn.
  now rewrite Hrunning.
Qed.

End CoordinatorServiceProperties.

(** ** Concurrent callers *)

Module InterleavingProperties.
Import Coordinator Interleaving CoordinatorProperties.

Section Invariant.
Variable cooldownDuration : Z.
Variable describe : N -> Z -> string.

Local Abbreviation advance := (advance cooldownDuration describe).
Local Abbreviation apply_event := (Interleaving.apply_event cooldownDuration describe).
Local Abbreviation run := (Interleaving.run cooldownDuration describe).

(** Replacing one caller changes the count by the difference of the
    two. *)
Lemma sum_list_with_insert {A} (f : A -> nat) (l : list A) (i : nat) (x y : A) :
  l !! i = Some x ->
  (sum_list_with f (<[i := y]> l) + f x = sum_list_with f l + f y)%nat.
Proof.
  intros Hi.
  rewrite insert_take_drop by (eapply lookup_lt_Some; eauto).
  rewrite <- (take_drop_middle l i x Hi) at 3.
  rewrite !sum_list_with_app. cbn. lia.
Qed.

Lemma consistent_idle : consistent_system idle_system.
Proof. intros n. reflexivity. Qed.

(** A step of a caller keeps the count of running jobs in line with
    the store. *)
Lemma advance_consistent (i : nat) (now : Z) (p : ProviderLaunch)
    (s s' : State) (cs : list Caller) (c c' : Caller) :
  cs !! i = Some c ->
  advance c now p s = (c', s') ->
  consistent_system {| state := s; callers := cs |} ->
  consistent_system {| state := s'; callers := <[i := c']> cs |}.
Proof.
  intros Hi Hstep Hs n. specialize (Hs n).
  unfold running_jobs, running_count in *. cbn [state callers] in *.
  pose proof (sum_list_with_insert (launching n) cs i c c' Hi) as Hsum.
  destruct c as [n0 | n0 | n0 started | n0 started | o];
    cbn [Interleaving.advance] in Hstep.
  - destruct (running_record (jobs s !! n0)); injection Hstep as <- <-;
      cbn [launching] in Hsum; rewrite <- Hs; lia.
  - unfold checkAndRecord in Hstep.
    destruct (limits s !! n0) as [lastAttemptAt |];
      [destruct (cooldownDuration <=? now - lastAttemptAt)%Z |];
      injection Hstep as <- <-; cbn [launching] in Hsum; cbn [jobs inflight];
      rewrite <- Hs; lia.
  - unfold compareAndSetRunning in Hstep. cbn zeta in Hstep.
    destruct (is_running (jobs s !! n0)) eqn:Hidle; injection Hstep as <- <-;
      cbn [launching] in Hsum; cbn [jobs inflight].
    + rewrite <- Hs. lia.
    + destruct (N.eqb_spec n0 n) as [-> | Hne].
      * rewrite lookup_insert_eq. rewrite Hidle in Hs.
        change (is_running (Some (running_job started))) with true.
        cbv iota. lia.
      * rewrite lookup_insert_ne by exact Hne. lia.
  - cbn [launching] in Hsum.
    destruct p as [| description]; cbn zeta in Hstep; injection Hstep as <- <-;
      cbn [launching] in Hsum; cbn [jobs inflight].
    + rewrite running_count_cons.
      destruct (N.eqb_spec n0 n) as [-> | Hne].
      * rewrite decide_True by reflexivity. lia.
      * rewrite decide_False by exact Hne. lia.
    + destruct (N.eqb_spec n0 n) as [-> | Hne].
      * rewrite lookup_insert_eq.
        change (is_running (Some (failed_job started now description))) with false.
        destruct (is_running (jobs s !! n)); cbv iota in *; lia.
      * rewrite lookup_insert_ne by exact Hne. lia.
  - injection Hstep as <- <-. rewrite <- Hs. lia.
Qed.

Lemma apply_event_consistent (ev : Event) (sys sys' : System) :
  consistent_system sys ->
  apply_event ev sys = Some sys' ->
  consistent_system sys'.
Proof.
  intros Hs. destruct sys as [s cs].
  destruct ev as [n0 | i now p | n0 r now | n0]; cbn.
  - intros [= <-] n. specialize (Hs n).
    unfold running_jobs in *. cbn [state callers] in *.
    rewrite sum_list_with_app. cbn. lia.
  - destruct (cs !! i) as [c |] eqn:Hi; [| discriminate].
    destruct (advance c now p s) as [c' s'] eqn:Hstep.
    intros [= <-]. eapply advance_consistent; eauto.
  - destruct (decide (n0 ∈ inflight s)) as [Hin |]; [| discriminate].
    intros [= <-] n. specialize (Hs n).
    unfold running_jobs, running_count, complete in *. cbn [state callers jobs inflight] in *.
    rewrite running_count_remove_one.
    destruct (decide (n = n0)) as [-> | Hne].
    + rewrite lookup_alter_eq, is_running_finish.
      pose proof (running_count_elem_of n0 (inflight s) Hin).
      destruct (is_running (jobs s !! n0)); lia.
    + rewrite lookup_alter_ne by congruence. exact Hs.
  - now intros [= <-].
Qed.

Lemma run_consistent (events : list Event) (sys sys' : System) :
  consistent_system sys ->
  run events sys = Some sys' ->
  consistent_system sys'.
Proof.
  revert sys. induction events as [| ev events IH]; intros sys Hs; cbn.
  - now intros [= <-].
  - destruct (apply_event ev sys) as [sys1 |] eqn:Hstep; [| discriminate].
    apply IH. eapply apply_event_consistent; eauto.
Qed.

(** A caller that runs its steps without interruption does what
    [start] does. *)
Lemma uninterrupted_start (n : N) (now : Z) (p : ProviderLaunch) (s : State) :
  uninterrupted cooldownDuration describe n now p s
  = (Returned (fst (start cooldownDuration describe n now p s)),
     snd (start cooldownDuration describe n now p s)).
Proof.
  unfold uninterrupted, start. cbn [Interleaving.advance].
  destruct (running_record (jobs s !! n)) eqn:Hrec; [reflexivity |].
  cbn [Interleaving.advance].
  destruct (checkAndRecord n cooldownDuration now (limits s)) as [[| remaining] limits'];
    [| reflexivity].
  cbn [Interleaving.advance jobs limits inflight].
  destruct (compareAndSetRunning n (running_job now) (jobs s)) as [[] jobs'];
    [| reflexivity].
  cbn [Interleaving.advance jobs limits inflight].
  destruct p; reflexivity.
Qed.

(** C2: however the steps of concurrent callers of [start],
    provider completions and status reads interleave, a network has
    at most one running job: the provider calls under way for it
    and the callers about to launch one are at most one, and
    exactly one when the store's record for it is running. *)
Theorem at_most_one_running (events : list Event) (sys : System) (n : N) :
  run events idle_system = Some sys ->
  (running_jobs n sys <= 1)%nat /\
  (running_jobs n sys = 1%nat <-> is_running (jobs (state sys) !! n) = true).
Proof.
  intros Hrun.
  pose proof (run_consistent events idle_system sys consistent_idle Hrun n) as Hn.
  rewrite Hn.
  destruct (is_running (jobs (state sys) !! n)); split; try lia; split; congruence.
Qed.

End Invariant.

End InterleavingProperties.

(** ** Scenarios *)

Module Scenarios.
Import Coordinator CoordinatorProperties.

(** Chain 8453 is started at time 0 and its provider call succeeds
    one second later; half a minute after the start a second start is
    denied with half a minute to wait. *)
Lemma start_twice_within_cooldown_witness :
  let events := [Complete 8453 (Succeeds "ok") 1000] in
  start 60000 Demo.describe 8453 0 Launches initial
  = (Started (running_job 0), Demo.started) /\
  run 60000 Demo.describe events Demo.started = Some Demo.completed /\
  limits Demo.completed !! 8453%N = Some 0%Z /\
  start 60000 Demo.describe 8453 30000 Launches Demo.completed
  = (RateLimited 8453 30000 (Demo.describe 8453 30000), Demo.completed) /\
  (0 < 30000 <= 60000)%Z.
Proof.
  cbn zeta.
  split; [reflexivity |]. split; [reflexivity |].
  apply (start_twice_within_cooldown 60000 Demo.describe 8453 0 30000
           Launches Launches initial Demo.started Demo.completed (running_job 0)
           [Complete 8453 (Succeeds "ok") 1000]);
    [reflexivity | reflexivity | reflexivity | reflexivity | lia].
Defined.

(** Section 8 of the spec, scenarios A to D, with a cooldown of one
    minute. *)
Example scenario_A :
  fst (start 60000 Demo.describe 8453 0 Launches initial) = Started (running_job 0) /\
  status <$> getStatus 8453 Demo.started = Some running.
Proof. split; reflexivity. Qed.

Example scenario_B :
  start 60000 Demo.describe 8453 1 Launches Demo.started
  = (AlreadyRunning (running_job 0), Demo.started).
Proof. reflexivity. Qed.

Example scenario_C :
  getStatus 8453 Demo.completed
  = Some {| status := succeeded; startedAt := 0; finishedAt := Some 1000%Z;
            result := Some "ok"; error := None |}.
Proof. reflexivity. Qed.

Example scenario_D :
  fst (start 60000 Demo.describe 8453 30000 Launches Demo.completed)
  = RateLimited 8453 30000 (Demo.describe 8453 30000) /\
  fst (start 60000 Demo.describe 8453 61000 Launches Demo.completed)
  = Started (running_job 61000).
Proof. split; reflexivity. Qed.

(** Two callers enter [start] for chain 8453 at once and take their
    steps in turn; the second loses the compare-and-set. *)
Lemma at_most_one_running_witness :
  let events :=
    [ Interleaving.Arrive 8453; Interleaving.Arrive 8453;
      Interleaving.Advance 0 0 Launches; Interleaving.Advance 1 0 Launches;
      Interleaving.Advance 0 0 Launches; Interleaving.Advance 1 0 Launches;
      Interleaving.Advance 0 0 Launches; Interleaving.Advance 1 0 Launches;
      Interleaving.Advance 0 0 Launches; Interleaving.Poll 8453 ] in
  exists sys,
    Interleaving.run 0 Demo.describe events Interleaving.idle_system = Some sys /\
    Interleaving.callers sys
    = [ Interleaving.Returned (Started (running_job 0));
        Interleaving.Returned (AlreadyRunning (running_job 0)) ] /\
    (Interleaving.running_jobs 8453 sys <= 1)%nat /\
    (Interleaving.running_jobs 8453 sys = 1%nat
     <-> is_running (jobs (Interleaving.state sys) !! 8453%N) = true).
Proof.
  cbn zeta. eexists. split; [reflexivity |]. split; [reflexivity |].
  apply (InterleavingProperties.at_most_one_running 0 Demo.describe
           [ Interleaving.Arrive 8453; Interleaving.Arrive 8453;
             Interleaving.Advance 0 0 Launches; Interleaving.Advance 1 0 Launches;
             Interleaving.Advance 0 0 Launches; Interleaving.Advance 1 0 Launches;
             Interleaving.Advance 0 0 Launches; Interleaving.Advance 1 0 Launches;
             Interleaving.Advance 0 0 Launches; Interleaving.Poll 8453 ]).
  reflexivity.
Defined.

(** A request for chain 8453 while its job is running. *)
Lemma sync_route_returns_running_job_witness :
  syncParamsSchema_parse "8453" = Ok 8453%N /\
  @sync_route Demo.service "8453" ([], Demo.running_world)
  = (Ok (JsonResponse 200
           (JObject [ ("success", JBool true); ("data", JJob (running_job 0)) ])),
     ([SyncGetStatus 8453], Demo.running_world)).
Proof.
  split; [reflexivity |].
  apply (@sync_route_returns_running_job Demo.service "8453" 8453 []
           Demo.running_world Demo.running_world (running_job 0));
    reflexivity.
Defined.

(** A request for chain 8453 half a minute after its last start. *)
Lemma sync_route_maps_start_result_witness :
  syncParamsSchema_parse "8453" = Ok 8453%N /\
  is_running (getStatus 8453 (coordinator Demo.cooling_world)) = false /\
  @sync_route Demo.service "8453" ([], Demo.cooling_world)
  = (Ok (JsonResponse 429
           (JObject [ ("success", JBool false);
                      ("error", JString "Rate limit exceeded");
                      ("data",
                       JObject [ ("rateLimited", JBool true);
                                 ("chainId", JNum 8453);
                                 ("remainingTime", JNum 30000);
                                 ("message", JString (Demo.describe 8453 30000)) ]) ])),
     ([SyncGetStatus 8453; SyncStart 8453], Demo.cooling_world)).
Proof.
  split; [reflexivity |]. split; [reflexivity |].
  apply (@sync_route_maps_start_result Demo.service "8453" 8453 []
           Demo.cooling_world Demo.cooling_world Demo.cooling_world
           (getStatus 8453 (coordinator Demo.cooling_world))
           (RateLimit {| rateLimited := true; rl_chainId := 8453;
                         rl_remainingTime := 30000;
                         rl_message := Demo.describe 8453 30000 |}));
    reflexivity.
Defined.

(** A status request for a chain that was never synchronised. *)
Lemma sync_status_route_reads_only_witness :
  @sync_status_route Demo.platform Demo.service "8453" ([], Demo.world initial 0)
  = (Ok (JsonResponse 200
           (JObject [ ("success", JBool true);
                      ("data", JNull);
                      ("message", JString "No sync process found for chain 8453") ])),
     ([SyncGetStatus 8453], Demo.world initial 0)).
Proof.
  apply (@sync_status_route_reads_only Demo.platform Demo.service "8453" 8453 []
           (Demo.world initial 0) (Demo.world initial 0) None);
    reflexivity.
Defined.



(** Two tokens, the first in the bucket and the second not: the second
    entry of the answer carries the second token and says it does not
    exist. *)
Lemma bulkCheckImagesInS3_keeps_tokens_witness :
  exists out,
    fst (@bulkCheckImagesInS3 Demo.platform Demo.storage
           [ {| token_chainId := 8453; token_address := Demo.usdc |};
             {| token_chainId := 1; token_address := "0xABCDEF" |} ]
           ([], tt))
    = Ok out /\
    length out = 2 /\
    out !! 0 = Some {| chainId := 8453; address := Demo.usdc; exists_ := true |} /\
    out !! 1 = Some {| chainId := 1; address := "0xABCDEF"; exists_ := false |}.
Proof.
  destruct (@bulkCheckImagesInS3_keeps_tokens Demo.platform Demo.storage
              [ {| token_chainId := 8453; token_address := Demo.usdc |};
                {| token_chainId := 1; token_address := "0xABCDEF" |} ]
              ([], tt))
    as [(results & out & st' & _ & Hbulk & Hlen & Hentries) _].
  exists out. split; [exact (f_equal fst Hbulk) |]. split; [exact Hlen |]. split.
  - destruct (Hentries 0 _ eq_refl) as (result & found & _ & -> & -> & ->).
    reflexivity.
  - destruct (Hentries 1 _ eq_refl) as (result & found & _ & -> & -> & ->).
    reflexivity.
Defined.

End Scenarios.


(** * Further properties of the image service *)

Section MimeFurther.

(** [cleanExtension] drops one leading dot and nothing else. *)
Lemma cleanExtension_match (e : string) :
  cleanExtension e
  = match e with
    | String "."%char rest => rest
    | _ => e
    end.
Proof.
  unfold cleanExtension. destruct e as [| c rest]; [reflexivity |].
  cbn [JsString.startsWith JsString.slice1]. rewrite andb_true_r.
  destruct c as [[] [] [] [] [] [] [] []]; reflexivity.
Qed.

(** X3: unless the normalised extension (one leading dot dropped,
    lower-cased) is the name of a property that object literals
    inherit, [getMimeType] returns the table entry of the normalised
    extension, and "application/octet-stream" when the table has none;
    either is a non-empty string. *)
Theorem getMimeType_string_unless_inherited (e : string) :
  let key :=
    JsString.toLowerCase
      match e with
      | String "."%char rest => rest
      | _ => e
      end in
  own_property ObjectPrototype key = None ->
  getMimeType e
  = VString (if String.eqb "png" key then "image/png"
             else if String.eqb "jpg" key then "image/jpeg"
             else if String.eqb "jpeg" key then "image/jpeg"
             else if String.eqb "webp" key then "image/webp"
             else if String.eqb "svg" key then "image/svg+xml"
             else if String.eqb "gif" key then "image/gif"
             else if String.eqb "bmp" key then "image/bmp"
             else if String.eqb "ico" key then "image/x-icon"
             else if String.eqb "tiff" key then "image/tiff"
             else if String.eqb "tif" key then "image/tiff"
             else "application/octet-stream") /\
  exists s, getMimeType e = VString s /\ s <> "".
Proof.
  cbn zeta. rewrite <- cleanExtension_match.
  unfold getMimeType, get_property.
  generalize (JsString.toLowerCase (cleanExtension e)) as key.
  intros key Hproto. cbn [own_property mimeTypes].
  repeat match goal with
         | |- context [String.eqb ?k key] => destruct (String.eqb k key)
         end;
    try rewrite Hproto; cbn; (split; [reflexivity |]);
    eexists; (split; [reflexivity | discriminate]).
Qed.

Lemma getMimeType_leading_dot_witness :
  JsString.startsWith "." "PNG" = false /\
  getMimeType ("." +:+ "PNG") = getMimeType "PNG".
Proof.
  split; [reflexivity |]. apply (getMimeType_leading_dot "PNG"). reflexivity.
Defined.

Lemma getMimeType_string_unless_inherited_witness :
  own_property ObjectPrototype "exe" = None /\
  getMimeType ".Exe" = VString "application/octet-stream" /\
  getMimeType ".JPG" = VString "image/jpeg".
Proof.
  split; [reflexivity |]. split.
  - exact (proj1 (getMimeType_string_unless_inherited ".Exe" eq_refl)).
  - exact (proj1 (getMimeType_string_unless_inherited ".JPG" eq_refl)).
Defined.

End MimeFurther.

Section StreamFurther.

(** A reader that yields the given chunks and then ends as given. *)
Lemma read_chunks_done (chunks acc : list bytes) :
  read_chunks (fold_right ReadChunk ReadDone chunks) acc = Ok (acc ++ chunks)%list.
Proof.
  revert acc. induction chunks as [| c chunks IH]; intros acc; cbn.
  - now rewrite app_nil_r.
  - rewrite IH. now rewrite <- app_assoc.
Qed.

Lemma read_chunks_fail (chunks acc : list bytes) (e : Exn) :
  read_chunks (fold_right ReadChunk (ReadFail e) chunks) acc = Throw e.
Proof.
  revert acc. induction chunks as [| c chunks IH]; intros acc; cbn; auto.
Qed.

End StreamFurther.

Section S3Further.
Context `{Platform} `{Storage}.

(** X4: when the GetObject request resolves and the body streams the
    chunks c1 ... cn and ends, [getImageFromS3] resolves to a payload
    whose buffer is c1 ++ ... ++ cn: the copy loop fills the buffer
    exactly and never writes out of bounds.  The content type comes
    from the extension in the metadata when there is one, else from
    the response, else it is application/octet-stream. *)
Theorem getImageFromS3_payload (chainId : N) (address : string)
    (trace : list Call) (w w1 : StorageWorld) (response : S3Response)
    (chunks : list bytes) :
  s3_get BUCKET_NAME (object_key chainId address) w = (Ok response, w1) ->
  Body response = Some (StreamOpens (fold_right ReadChunk ReadDone chunks)) ->
  let metadata_extension :=
    if_truthy match Metadata response with
              | Some metadata => own_property metadata "extension"
              | None => None
              end in
  getImageFromS3 chainId address (trace, w)
  = (Ok (Some {| buffer := concat chunks;
                 contentType :=
                   match metadata_extension with
                   | Some ext => getMimeType ext
                   | None => VString (or_default (ContentType response) octet_stream)
                   end;
                 extension := metadata_extension |}),
     ((trace ++ [S3GetObject BUCKET_NAME (object_key chainId address)])%list, w1)).
Proof.
  intros Hget Hbody. cbn zeta.
  unfold getImageFromS3, try_catch, bind, call, lift, ret.
  rewrite Hget. cbn. rewrite Hbody. cbn.
  rewrite read_chunks_done. cbn -[assemble]. rewrite assemble_concat. cbn.
  now destruct (if_truthy _).
Qed.

(** X5: when the body stream fails, after however many chunks,
    [getImageFromS3] resolves to [null]: a partial image is never
    returned. *)
Theorem getImageFromS3_broken_stream (chainId : N) (address : string)
    (trace : list Call) (w w1 : StorageWorld) (response : S3Response)
    (chunks : list bytes) (e : Exn) :
  s3_get BUCKET_NAME (object_key chainId address) w = (Ok response, w1) ->
  Body response = Some (StreamOpens (fold_right ReadChunk (ReadFail e) chunks)) ->
  getImageFromS3 chainId address (trace, w)
  = (Ok None,
     ((trace ++ [S3GetObject BUCKET_NAME (object_key chainId address)])%list, w1)).
Proof.
  intros Hget Hbody.
  unfold getImageFromS3, try_catch, bind, call, lift, ret.
  rewrite Hget. cbn. rewrite Hbody. cbn.
  now rewrite read_chunks_fail.
Qed.

(** X6: the lookups depend on the address only through its lower-case
    form: two addresses that differ in case only name the same object
    and the same directory. *)
Theorem lookups_ignore_address_case (chainId : N) (a b : string) :
  JsString.toLowerCase a = JsString.toLowerCase b ->
  getImageFromS3 chainId a = getImageFromS3 chainId b /\
  checkImageExistsInS3 chainId a = checkImageExistsInS3 chainId b /\
  getImageFromSourceDir chainId a = getImageFromSourceDir chainId b.
Proof.
  intros Hcase.
  unfold getImageFromS3, checkImageExistsInS3, getImageFromSourceDir, object_key.
  now rewrite Hcase.
Qed.

End S3Further.

Section UploadFurther.
Context `{Platform} `{Storage} `{!ObjectWriter}.

(** X7: [uploadImageToS3] never throws.  It sends one PutObject
    command: to the bucket hypurrfi-token-imgs, under the key
    chainId/lower-cased address/image, with the bytes it was given,
    the content type [getMimeType extension], and as metadata the
    extension, the provider, the download date and, when it is a
    non-empty string, the original URL.  It resolves to [true] when
    the request resolves and to [false] when it throws. *)
Theorem uploadImageToS3_resolves (chainId : N) (address : string)
    (imageBuffer : bytes) (extension : string) (metadata : UploadMetadata)
    (trace : list Call) (w : StorageWorld) :
  let command :=
    {| put_Bucket := "hypurrfi-token-imgs";
       put_Key :=
         Number_toString chainId +:+ "/" +:+ JsString.toLowerCase address +:+ "/image";
       put_Body := imageBuffer;
       put_ContentType := getMimeType extension;
       put_Metadata :=
         ([ ("extension", extension);
            ("provider", meta_provider metadata);
            ("downloadDate", meta_downloadDate metadata) ]
          ++ match meta_originalUrl metadata with
             | Some url => if String.eqb url "" then [] else [("originalUrl", url)]
             | None => []
             end)%list |} in
  uploadImageToS3 chainId address imageBuffer extension metadata (trace, w)
  = (Ok match fst (s3_put command w) with
        | Ok _ => true
        | Throw _ => false
        end,
     (trace, snd (s3_put command w))).
Proof.
  cbn zeta.
  assert (Hcommand :
            put_command chainId address imageBuffer extension metadata
            = {| put_Bucket := "hypurrfi-token-imgs";
                 put_Key :=
                   Number_toString chainId +:+ "/" +:+ JsString.toLowerCase address
                   +:+ "/image";
                 put_Body := imageBuffer;
                 put_ContentType := getMimeType extension;
                 put_Metadata :=
                   ([ ("extension", extension);
                      ("provider", meta_provider metadata);
                      ("downloadDate", meta_downloadDate metadata) ]
                    ++ match meta_originalUrl metadata with
                       | Some url =>
                           if String.eqb url "" then [] else [("originalUrl", url)]
                       | None => []
                       end)%list |}).
  { unfold put_command, spread_originalUrl, if_truthy, JsString.truthy.
    destruct (meta_originalUrl metadata) as [url |]; [| reflexivity].
    now destruct (String.eqb url ""). }
  unfold uploadImageToS3, try_catch, bind, send_put, ret. rewrite Hcommand.
  now destruct (s3_put _ w) as [[[] | e] w'].
Qed.

(** The extension is the first entry of the metadata of the command. *)
Lemma put_command_extension (chainId : N) (address : string)
    (imageBuffer : bytes) (extension : string) (metadata : UploadMetadata) :
  own_property
    (put_Metadata (put_command chainId address imageBuffer extension metadata))
    "extension"
  = Some extension.
Proof. reflexivity. Qed.

(** X8: what is uploaded is what is served.  When the upload succeeds
    and a later GetObject, for an address that differs at most in
    case, answers with the stored object, [getImageFromS3] resolves to
    the uploaded bytes with the content type [getMimeType extension];
    the extension comes back too, unless it is empty. *)
Theorem upload_then_get (chainId : N) (address address' : string)
    (imageBuffer : bytes) (extension : string) (metadata : UploadMetadata)
    (trace : list Call) (w w1 w2 : StorageWorld) (response : S3Response) :
  let command := put_command chainId address imageBuffer extension metadata in
  JsString.toLowerCase address' = JsString.toLowerCase address ->
  s3_put command w = (Ok tt, w1) ->
  s3_get BUCKET_NAME (object_key chainId address') w1 = (Ok response, w2) ->
  response_of_put response command ->
  uploadImageToS3 chainId address imageBuffer extension metadata (trace, w)
  = (Ok true, (trace, w1)) /\
  getImageFromS3 chainId address' (trace, w1)
  = (Ok (Some {| buffer := imageBuffer;
                 contentType := getMimeType extension;
                 extension := if_truthy (Some extension) |}),
     ((trace ++ [S3GetObject BUCKET_NAME (put_Key command)])%list, w2)).
Proof.
  cbn zeta.
  intros Hcase Hput Hget
    ((reader & chunks & Hbody & Hread & Hbytes) & Htype & (stored & Hmeta & Hstored)).
  assert (Hkey : object_key chainId address' = object_key chainId address)
    by (unfold object_key; now rewrite Hcase).
  split.
  - unfold uploadImageToS3, try_catch, bind, send_put, ret. now rewrite Hput.
  - unfold getImageFromS3, try_catch, bind, call, lift, ret.
    rewrite Hget. cbn. rewrite Hbody. cbn. rewrite Hread. cbn -[assemble].
    rewrite assemble_concat. cbn -[put_command].
    rewrite Hmeta, Hstored, put_command_extension.
    cbn in Hbytes. rewrite Hbytes, Hkey.
    unfold if_truthy.
    destruct (JsString.truthy extension) eqn:Hext; [reflexivity |].
    assert (extension = "") as ->.
    { unfold JsString.truthy in Hext.
      destruct (String.eqb_spec extension ""); [assumption | discriminate]. }
    rewrite (Htype octet_stream eq_refl). reflexivity.
Qed.

End UploadFurther.

(** * Further properties of the source directory lookup *)

Section FileNames.

Lemma find_Some_pred (pred : string -> bool) (files : list string) (f : string) :
  JsString.find pred files = Some f -> pred f = true.
Proof.
  induction files as [| g files IH]; cbn; [discriminate |].
  destruct (pred g) eqn:Hg; [| exact IH].
  now intros [= <-].
Qed.

Lemma find_None_weaken (p q : string -> bool) (files : list string) :
  (forall f, q f = true -> p f = true) ->
  JsString.find p files = None -> JsString.find q files = None.
Proof.
  intros Hqp. induction files as [| g files IH]; cbn; [reflexivity |].
  destruct (p g) eqn:Hp; [discriminate |].
  destruct (q g) eqn:Hq; [| exact IH].
  rewrite (Hqp g Hq) in Hp. discriminate.
Qed.

Lemma startsWith_truthy (a : ascii) (p f : string) :
  JsString.startsWith (String a p) f = true -> if_truthy (Some f) = Some f.
Proof. destruct f; cbn; [discriminate | reflexivity]. Qed.

Lemma startsWith_app (p q f : string) :
  JsString.startsWith (p +:+ q) f = true -> JsString.startsWith p f = true.
Proof.
  revert f. induction p as [| a p IH]; intros f; cbn; [reflexivity |].
  destruct f as [| b f]; [discriminate |].
  intros [Hab Hrest]%andb_prop. rewrite Hab. cbn. now apply IH.
Qed.

Lemma split_dot_plain (ext : string) :
  has_dot ext = false -> JsString.split_dot ext = [ext].
Proof.
  induction ext as [| c ext IH]; [reflexivity |].
  cbn. intros [Hc Hrest]%orb_false_elim.
  rewrite Hc, (IH Hrest). reflexivity.
Qed.

Lemma split_dot_last (stem ext : string) :
  has_dot ext = false ->
  exists seg segs,
    JsString.split_dot (stem +:+ "." +:+ ext) = seg :: segs /\
    segs <> [] /\ last segs = Some ext.
Proof.
  intros Hext.
  pose proof (split_dot_plain ext Hext) as Hplain.
  induction stem as [| c stem IH].
  - exists "", [ext].
    change (JsString.split_dot ("" +:+ "." +:+ ext))
      with ("" :: JsString.split_dot ext).
    rewrite Hplain. repeat split; congruence.
  - destruct IH as (seg & segs & Hsplit & Hne & Hlast).
    change (String c stem +:+ "." +:+ ext) with (String c (stem +:+ "." +:+ ext)).
    cbn [JsString.split_dot]. rewrite Hsplit.
    destruct (Ascii.eqb c ".").
    + exists "", (seg :: segs). repeat split; [congruence |].
      destruct segs; [contradiction | exact Hlast].
    + exists (String c seg), segs. repeat split; assumption.
Qed.

(** X12: [name.split(".").pop()] is the text after the last dot of the
    name, and the whole name when it has no dot. *)
Theorem extension_after_last_dot (stem ext : string) :
  has_dot ext = false ->
  JsString.pop (JsString.split_dot (stem +:+ "." +:+ ext)) = Some ext /\
  JsString.pop (JsString.split_dot ext) = Some ext.
Proof.
  intros Hext. split.
  - destruct (split_dot_last stem ext Hext) as (seg & segs & -> & Hne & Hlast).
    unfold JsString.pop. destruct segs; [contradiction | exact Hlast].
  - now rewrite (split_dot_plain ext Hext).
Qed.

Lemma extension_after_last_dot_witness :
  has_dot "gz" = false /\
  JsString.pop (JsString.split_dot ("image.tar" +:+ "." +:+ "gz")) = Some "gz" /\
  JsString.pop (JsString.split_dot "gz") = Some "gz".
Proof.
  split; [reflexivity |]. apply (extension_after_last_dot "image.tar" "gz"). reflexivity.
Defined.

End FileNames.

Section SourceDirFurther.
Context `{Platform} `{Storage}.

(** What the lookup resolves to once it has settled on a file. *)
Lemma getImageFromSourceDir_chosen (chainId : N) (address : string)
    (trace : list Call) (w w1 w2 : StorageWorld) (files : list string)
    (f : string) (content : bytes) :
  let tokenDir :=
    join [cwd; "images"; Number_toString chainId; JsString.toLowerCase address] in
  readdir tokenDir w = (Ok files, w1) ->
  or_else
    (or_else (JsString.find (JsString.startsWith "image.png") files)
       (JsString.find (JsString.startsWith "image.jpg") files))
    (JsString.find (JsString.startsWith "image.") files) = Some f ->
  if_truthy (Some f) = Some f ->
  readFile (join [tokenDir; f]) w1 = (Ok content, w2) ->
  getImageFromSourceDir chainId address (trace, w)
  = (Ok (Some {| buffer := content;
                 contentType :=
                   match if_truthy (JsString.pop (JsString.split_dot f)) with
                   | Some ext => getMimeType ext
                   | None => VString octet_stream
                   end;
                 extension := JsString.pop (JsString.split_dot f) |}),
     ((trace ++ [FsReaddir tokenDir; FsReadFile (join [tokenDir; f])])%list, w2)).
Proof.
  cbn zeta. intros Hdir Hchosen Htruthy Hfile.
  unfold getImageFromSourceDir, try_catch, bind, call, lift, ret.
  rewrite Hdir. cbn -[or_else if_truthy JsString.startsWith JsString.find]. rewrite Hchosen, Htruthy.
  rewrite Hfile. cbn -[if_truthy]. now rewrite <- app_assoc.
Qed.

(** X9: a file whose name starts with [image.png] is preferred to every
    other candidate, wherever it stands in the listing: the first such
    file is the one read and returned. *)
Theorem getImageFromSourceDir_prefers_png (chainId : N) (address : string)
    (trace : list Call) (w w1 w2 : StorageWorld) (files : list string)
    (f : string) (content : bytes) :
  let tokenDir :=
    join [cwd; "images"; Number_toString chainId; JsString.toLowerCase address] in
  readdir tokenDir w = (Ok files, w1) ->
  JsString.find (JsString.startsWith "image.png") files = Some f ->
  readFile (join [tokenDir; f]) w1 = (Ok content, w2) ->
  getImageFromSourceDir chainId address (trace, w)
  = (Ok (Some {| buffer := content;
                 contentType :=
                   match if_truthy (JsString.pop (JsString.split_dot f)) with
                   | Some ext => getMimeType ext
                   | None => VString octet_stream
                   end;
                 extension := JsString.pop (JsString.split_dot f) |}),
     ((trace ++ [FsReaddir tokenDir; FsReadFile (join [tokenDir; f])])%list, w2)).
Proof.
  cbn zeta. intros Hdir Hpng Hfile.
  pose proof (startsWith_truthy _ _ _ (find_Some_pred _ _ _ Hpng)) as Htruthy.
  apply (getImageFromSourceDir_chosen chainId address trace w w1 w2 files f content);
    try assumption.
  rewrite Hpng. unfold or_else at 2. rewrite Htruthy.
  unfold or_else. now rewrite Htruthy.
Qed.

(** X10: without a file starting with [image.png], the first file
    starting with [image.jpg] is the one read and returned, also when
    other [image.] files come before it. *)
Theorem getImageFromSourceDir_falls_back_to_jpg (chainId : N) (address : string)
    (trace : list Call) (w w1 w2 : StorageWorld) (files : list string)
    (f : string) (content : bytes) :
  let tokenDir :=
    join [cwd; "images"; Number_toString chainId; JsString.toLowerCase address] in
  readdir tokenDir w = (Ok files, w1) ->
  JsString.find (JsString.startsWith "image.png") files = None ->
  JsString.find (JsString.startsWith "image.jpg") files = Some f ->
  readFile (join [tokenDir; f]) w1 = (Ok content, w2) ->
  getImageFromSourceDir chainId address (trace, w)
  = (Ok (Some {| buffer := content;
                 contentType :=
                   match if_truthy (JsString.pop (JsString.split_dot f)) with
                   | Some ext => getMimeType ext
                   | None => VString octet_stream
                   end;
                 extension := JsString.pop (JsString.split_dot f) |}),
     ((trace ++ [FsReaddir tokenDir; FsReadFile (join [tokenDir; f])])%list, w2)).
Proof.
  cbn zeta. intros Hdir Hpng Hjpg Hfile.
  pose proof (startsWith_truthy _ _ _ (find_Some_pred _ _ _ Hjpg)) as Htruthy.
  apply (getImageFromSourceDir_chosen chainId address trace w w1 w2 files f content);
    try assumption.
  rewrite Hpng, Hjpg. unfold or_else at 2. cbn [if_truthy].
  unfold or_else. now rewrite Htruthy.
Qed.

(** X11: a directory in which no name starts with [image.] yields no
    image, and no file of it is read. *)
Theorem getImageFromSourceDir_no_candidate (chainId : N) (address : string)
    (trace : list Call) (w w1 : StorageWorld) (files : list string) :
  let tokenDir :=
    join [cwd; "images"; Number_toString chainId; JsString.toLowerCase address] in
  readdir tokenDir w = (Ok files, w1) ->
  JsString.find (JsString.startsWith "image.") files = None ->
  getImageFromSourceDir chainId address (trace, w)
  = (Ok None, ((trace ++ [FsReaddir tokenDir])%list, w1)).
Proof.
  cbn zeta. intros Hdir Hnone.
  assert (Hpng : JsString.find (JsString.startsWith "image.png") files = None).
  { apply (find_None_weaken (JsString.startsWith "image.")); [| exact Hnone].
    intros f. apply (startsWith_app "image." "png"). }
  assert (Hjpg : JsString.find (JsString.startsWith "image.jpg") files = None).
  { apply (find_None_weaken (JsString.startsWith "image.")); [| exact Hnone].
    intros f. apply (startsWith_app "image." "jpg"). }
  unfold getImageFromSourceDir, try_catch, bind, call, lift, ret.
  rewrite Hdir. cbn -[or_else if_truthy JsString.startsWith JsString.find]. rewrite Hpng, Hjpg, Hnone.
  reflexivity.
Qed.

End SourceDirFurther.

(** * Further properties of the bulk check *)

Section BulkFurther.
Context `{Platform} `{Storage}.

Lemma allSettled_requests (tokens : list Token) (trace : list Call) (w : StorageWorld) :
  exists results w',
    allSettled (map check_token tokens) (trace, w)
    = (Ok results, ((trace ++ map head_request tokens)%list, w')) /\
    length results = length tokens.
Proof.
  revert trace w. induction tokens as [| token tokens IH]; intros trace w.
  - exists [], w. cbn. now rewrite app_nil_r.
  - destruct (IH (trace ++ [head_request token])%list
                (snd (s3_head BUCKET_NAME
                        (object_key (token_chainId token) (token_address token)) w)))
      as (results & w' & Hrest & Hlen).
    eexists (_ :: results), w'. split.
    + unfold allSettled in *. cbn [map sequence].
      unfold bind at 1. unfold settle at 1, try_catch, bind at 1.
      rewrite check_token_result. cbn [ret].
      unfold bind at 1. rewrite Hrest.
      cbn [ret]. rewrite <- app_assoc. reflexivity.
    + cbn. now rewrite Hlen.
Qed.

(** X13: [bulkCheckImagesInS3] sends one HeadObject request per token,
    in the order of the tokens: to the bucket hypurrfi-token-imgs, for
    the key chainId/lower-cased address/image of the token.  It sends
    nothing else. *)
Theorem bulkCheckImagesInS3_requests (tokens : list Token) (trace : list Call)
    (w : StorageWorld) :
  fst (snd (bulkCheckImagesInS3 tokens (trace, w)))
  = (trace
     ++ map (fun token =>
               S3HeadObject "hypurrfi-token-imgs"
                 (Number_toString (token_chainId token) +:+ "/"
                  +:+ JsString.toLowerCase (token_address token) +:+ "/image"))
          tokens)%list.
Proof.
  destruct (allSettled_requests tokens trace w) as (results & w' & Hrun & Hlen).
  unfold bulkCheckImagesInS3, bind, lift. rewrite Hrun.
  now rewrite collect_from_zip by (cbn; lia).
Qed.

Lemma allSettled_read_only (tokens : list Token) (trace : list Call) (w : StorageWorld) :
  (forall bucket key w0, snd (s3_head bucket key w0) = w0) ->
  allSettled (map check_token tokens) (trace, w)
  = (Ok (map (fun token =>
                Fulfilled
                  {| chainId := token_chainId token;
                     address := token_address token;
                     exists_ :=
                       match fst (s3_head BUCKET_NAME
                                    (object_key (token_chainId token)
                                       (token_address token)) w) with
                       | Ok _ => true
                       | Throw _ => false
                       end |}) tokens),
     ((trace ++ map head_request tokens)%list, w)).
Proof.
  intros Hpure. revert trace.
  induction tokens as [| token tokens IH]; intros trace.
  - cbn. now rewrite app_nil_r.
  - unfold allSettled in *. cbn [map sequence].
    unfold bind at 1. unfold settle at 1, try_catch, bind at 1.
    rewrite check_token_result. cbn [ret].
    rewrite Hpure. unfold bind at 1. rewrite IH.
    cbn [ret]. rewrite <- app_assoc. reflexivity.
Qed.

(** X14: when a HeadObject request leaves the bucket as it is, the
    answer of [bulkCheckImagesInS3] says, token by token, whether the
    request for that token's key resolves. *)
Theorem bulkCheckImagesInS3_flags (tokens : list Token) (trace : list Call)
    (w : StorageWorld) :
  (forall bucket key w0, snd (s3_head bucket key w0) = w0) ->
  bulkCheckImagesInS3 tokens (trace, w)
  = (Ok (map (fun token =>
                {| chainId := token_chainId token;
                   address := token_address token;
                   exists_ :=
                     match fst (s3_head BUCKET_NAME
                                  (object_key (token_chainId token)
                                     (token_address token)) w) with
                     | Ok _ => true
                     | Throw _ => false
                     end |}) tokens),
     ((trace ++ map head_request tokens)%list, w)).
Proof.
  intros Hpure.
  unfold bulkCheckImagesInS3, bind, lift.
  rewrite (allSettled_read_only tokens trace w Hpure).
  rewrite collect_from_zip by (cbn; rewrite length_map; lia).
  rewrite drop_0. f_equal. f_equal.
  clear. induction tokens as [| token tokens IH]; [reflexivity |].
  cbn. now rewrite IH.
Qed.

End BulkFurther.

(** * Further properties of the chain id parameter *)

Module ChainIdProperties.
Import JsNumberOps.

Local Open Scope Z_scope.

Lemma floor_log2_integer (p : Z) : 0 < p -> floor_log2 p 1 = Z.log2 p.
Proof.
  intros Hp. unfold floor_log2, shift_ratio.
  change (Z.log2 1) with 0. rewrite Z.sub_0_r.
  pose proof (Z.log2_nonneg p).
  destruct (Z.log2_spec p Hp) as [Hlo _].
  destruct (Z.leb_spec 0 (Z.log2 p)); [| lia].
  rewrite Z.mul_1_l.
  destruct (Z.leb_spec (2 ^ Z.log2 p) p); [reflexivity | lia].
Qed.

Lemma round_small (neg : bool) (p : Z) :
  0 < p < 2 ^ 53 ->
  round_to_double neg p 1
  = Finite neg (Z.to_N (p * 2 ^ (52 - Z.log2 p))) (Z.log2 p - 52).
Proof.
  intros Hp.
  pose proof (Z.log2_nonneg p) as Hd0.
  assert (Hd1 : Z.log2 p < 53) by (apply Z.log2_lt_pow2; lia).
  destruct (Z.log2_spec p ltac:(lia)) as [Hlo Hhi].
  unfold round_to_double. rewrite floor_log2_integer by lia.
  remember (Z.log2 p) as d eqn:Hdeq. clear Hdeq.
  assert (Hpos : 0 < 2 ^ (52 - d)) by (apply Z.pow_pos_nonneg; lia).
  assert (Hposd : 0 < 2 ^ d) by (apply Z.pow_pos_nonneg; lia).
  assert (Hm : 2 ^ 52 <= p * 2 ^ (52 - d) < 2 ^ 53).
  { assert (H52 : 2 ^ d * 2 ^ (52 - d) = 2 ^ 52)
      by (rewrite <- Z.pow_add_r by lia; f_equal; lia).
    assert (H53 : 2 ^ Z.succ d * 2 ^ (52 - d) = 2 ^ 53)
      by (rewrite <- Z.pow_add_r by lia; f_equal; lia).
    nia. }
  destruct (Z.leb_spec 1024 d) as [? | _]; [lia |].
  rewrite Z.max_l by lia.
  assert (Hshift : shift_ratio p 1 (d - 52) = (p * 2 ^ (52 - d), 1)).
  { unfold shift_ratio. destruct (Z.leb_spec 0 (d - 52)).
    - assert (d = 52) as -> by lia. f_equal. cbn. lia.
    - f_equal. f_equal. f_equal. lia. }
  rewrite Hshift. cbv beta iota zeta. rewrite Z.div_1_r, Z.mod_1_r.
  change (2 * 0 <? 1) with true. cbv iota.
  destruct (Z.eqb_spec (p * 2 ^ (52 - d)) (2 ^ 53)) as [? | _]; [lia |].
  destruct (Z.ltb_spec 971 (d - 52)) as [? | _]; [lia |].
  destruct (Z.eqb_spec (p * 2 ^ (52 - d)) 0) as [? | _]; [lia |].
  reflexivity.
Qed.

Lemma small_integer_number (neg : bool) (n : N) :
  (0 < n < 2 ^ 53)%N ->
  exists m e,
    of_decimal neg n 0 = Finite neg m e /\
    m <> 0%N /\
    isInteger (Finite neg m e) = true /\
    to_N (Finite neg m e) = n.
Proof.
  intros Hn.
  assert (Hp : 0 < Z.of_N n < 2 ^ 53) by lia.
  pose proof (Z.log2_nonneg (Z.of_N n)) as Hd0.
  assert (Hd1 : Z.log2 (Z.of_N n) < 53) by (apply Z.log2_lt_pow2; lia).
  unfold of_decimal.
  destruct (N.eqb_spec n 0) as [? | _]; [lia |].
  change (0 <=? 0) with true. cbv iota.
  rewrite Z.pow_0_r, Z.mul_1_r, round_small by exact Hp.
  remember (Z.log2 (Z.of_N n)) as d eqn:Hdeq. clear Hdeq.
  assert (Hpos : 0 < 2 ^ (52 - d)) by (apply Z.pow_pos_nonneg; lia).
  eexists _, _. split; [reflexivity |].
  split; [lia |]. unfold isInteger, to_N.
  destruct (Z.leb_spec 0 (d - 52)).
  - split; [reflexivity |].
    assert (d = 52) as -> by lia.
    change (52 - 52) with 0. rewrite Z.pow_0_r, Z.mul_1_r, N2Z.id.
    change (2 ^ Z.to_N 0)%N with 1%N. lia.
  - replace (- (d - 52)) with (52 - d) by lia.
    rewrite Z2N.id by lia. rewrite Z.mod_mul by lia.
    split; [reflexivity |].
    apply N2Z.inj. rewrite N2Z.inj_div, N2Z.inj_pow, !Z2N.id by lia.
    change (Z.of_N 2) with 2. apply Z.div_mul. lia.
Qed.

Local Close Scope Z_scope.

Lemma digit_value_pretty_char (d : N) :
  (d < 10)%N -> digit_value 10 (pretty_N_char d) = Some d.
Proof.
  intros Hd.
  assert (d = 0 \/ d = 1 \/ d = 2 \/ d = 3 \/ d = 4 \/ d = 5 \/ d = 6 \/ d = 7
          \/ d = 8 \/ d = 9)%N as Hcases by lia.
  repeat destruct Hcases as [-> | Hcases]; try subst d; reflexivity.
Qed.

Lemma take_digits_pretty_go (x : N) (s : string) :
  exists k,
    ((0 < x)%N -> (0 < k)%nat) /\
    forall acc c,
      take_digits 10 (list_ascii_of_string (pretty_N_go x s)) acc c
      = take_digits 10 (list_ascii_of_string s)
          (acc * 10 ^ N.of_nat k + x)%N (c + k)%nat.
Proof.
  revert s. induction (N.lt_wf_0 x) as [x _ IH]; intros s.
  destruct (decide (x = 0%N)) as [-> | Hx].
  - exists 0%nat. split; [lia |]. intros acc c.
    rewrite pretty_N_go_0. f_equal; cbn; lia.
  - rewrite pretty_N_go_step by lia.
    destruct (IH (x `div` 10)%N ltac:(apply N.div_lt; lia)
                (String (pretty_N_char (x `mod` 10)) s)) as (k & _ & Hrun).
    exists (S k). split; [lia |]. intros acc c.
    rewrite Hrun. cbn [list_ascii_of_string take_digits].
    rewrite digit_value_pretty_char by (apply N.mod_lt; lia).
    f_equal; [| lia].
    rewrite Nat2N.inj_succ, N.pow_succ_r'.
    pose proof (N.div_mod x 10 ltac:(lia)). lia.
Qed.

Lemma pretty_go_digits (x : N) (s : string) :
  Forall decimal_digit (list_ascii_of_string s) ->
  Forall decimal_digit (list_ascii_of_string (pretty_N_go x s)).
Proof.
  revert s. induction (N.lt_wf_0 x) as [x _ IH]; intros s Hs.
  destruct (decide (x = 0%N)) as [-> | Hx].
  - now rewrite pretty_N_go_0.
  - rewrite pretty_N_go_step by lia.
    apply IH; [apply N.div_lt; lia |].
    cbn. constructor; [| exact Hs].
    unfold decimal_digit, is_decimal_digit.
    now rewrite digit_value_pretty_char by (apply N.mod_lt; lia).
Qed.

Lemma digit_not_white_space (c : ascii) : decimal_digit c -> is_white_space c = false.
Proof.
  unfold decimal_digit.
  destruct c as [[] [] [] [] [] [] [] []]; vm_compute; congruence.
Qed.

Lemma trim_start_id (l : list ascii) :
  match l with
  | c :: _ => is_white_space c = false
  | [] => True
  end ->
  trim_start l = l.
Proof. destruct l as [| c l]; cbn; [reflexivity |]. now intros ->. Qed.

Lemma trim_no_white_space (l : list ascii) :
  Forall (fun c => is_white_space c = false) l -> trim l = l.
Proof.
  intros Hl. unfold trim.
  rewrite (trim_start_id l) by (destruct Hl; auto).
  rewrite trim_start_id; [apply rev_involutive |].
  apply Forall_rev in Hl. destruct Hl; auto.
Qed.

Lemma parse_decimal_digits (neg : bool) (l : list ascii) (v : N) (k : nat) :
  Forall decimal_digit l ->
  take_digits 10 l 0 0 = (v, S k, []) ->
  parse_decimal neg l = of_decimal neg v 0.
Proof.
  intros Hl Htake. unfold parse_decimal.
  assert (Hinf : list_ascii_eqb l Infinity_literal = false).
  { destruct Hl as [| c l Hc _]; [reflexivity |].
    unfold list_ascii_eqb. cbn.
    unfold decimal_digit in Hc.
    destruct c as [[] [] [] [] [] [] [] []]; try reflexivity;
      vm_compute in Hc; discriminate. }
  rewrite Hinf. unfold parse_unsigned_decimal. rewrite Htake. reflexivity.
Qed.

Lemma Number_digits (s : string) (v : N) (k : nat) :
  Forall decimal_digit (list_ascii_of_string s) ->
  take_digits 10 (list_ascii_of_string s) 0 0 = (v, S k, []) ->
  Number s = of_decimal false v 0 /\
  Number ("-" +:+ s) = of_decimal true v 0.
Proof.
  intros Hl Htake.
  assert (Hws : Forall (fun c => is_white_space c = false) (list_ascii_of_string s))
    by (eapply Forall_impl; [exact Hl | apply digit_not_white_space]).
  split.
  - rewrite <- (parse_decimal_digits false _ v k Hl Htake).
    unfold Number. rewrite trim_no_white_space by exact Hws.
    destruct (list_ascii_of_string s) as [| a l]; [discriminate |].
    apply Forall_cons in Hl as [Ha Hl]. unfold decimal_digit in Ha.
    destruct a as [[] [] [] [] [] [] [] []]; try reflexivity;
      try (vm_compute in Ha; discriminate).
    destruct l as [| c l]; [reflexivity |].
    apply Forall_cons in Hl as [Hc Hl]. unfold decimal_digit in Hc.
    destruct c as [[] [] [] [] [] [] [] []]; try reflexivity;
      vm_compute in Hc; discriminate.
  - rewrite <- (parse_decimal_digits true _ v k Hl Htake).
    unfold Number. cbn [String.append list_ascii_of_string].
    rewrite trim_no_white_space by (constructor; [reflexivity | exact Hws]).
    reflexivity.
Qed.

Lemma pretty_N_digits (n : N) :
  exists k,
    Forall decimal_digit (list_ascii_of_string (pretty n)) /\
    take_digits 10 (list_ascii_of_string (pretty n)) 0 0 = (n, S k, []).
Proof.
  unfold pretty, pretty_N.
  destruct (decide (n = 0%N)) as [-> | Hn].
  - exists 0%nat. split; [| reflexivity].
    repeat constructor.
  - destruct (take_digits_pretty_go n "") as (k & Hk & Hrun).
    destruct k as [| k]; [lia |].
    exists k. split.
    + apply pretty_go_digits. constructor.
    + rewrite Hrun. cbn; repeat f_equal; lia.
Qed.

(** X15: a chain id below 2^53 written in decimal is accepted and read
    back as itself. *)
Theorem chainId_transform_decimal_text (n : N) :
  (n < 2 ^ 53)%N -> chainId_transform (pretty n) = Ok n.
Proof.
  intros Hn.
  destruct (pretty_N_digits n) as (k & Hdigits & Htake).
  destruct (Number_digits (pretty n) n k Hdigits Htake) as [Hnumber _].
  unfold chainId_transform. rewrite Hnumber.
  destruct (N.eq_dec n 0%N) as [-> | Hpos]; [reflexivity |].
  destruct (small_integer_number false n ltac:(lia)) as (m & e & -> & Hm & Hint & Hval).
  rewrite Hint, Hval. reflexivity.
Qed.

(** X16: a negative decimal chain id is rejected, with an [Error] whose
    message ends in the parameter. *)
Theorem chainId_transform_negative_text (n : N) :
  (0 < n < 2 ^ 53)%N ->
  chainId_transform ("-" +:+ pretty n)
  = Throw (Error ("chainId must be a valid positive integer value: -" +:+ pretty n)).
Proof.
  intros Hn.
  destruct (pretty_N_digits n) as (k & Hdigits & Htake).
  destruct (Number_digits (pretty n) n k Hdigits Htake) as [_ Hnumber].
  unfold chainId_transform. rewrite Hnumber.
  destruct (small_integer_number true n Hn) as (m & e & -> & Hm & Hint & Hval).
  rewrite Hint. cbn [isNaN lt_zero negb orb andb].
  destruct (N.eqb_spec m 0) as [? | _]; [contradiction |].
  reflexivity.
Qed.

Lemma chainId_transform_decimal_text_witness :
  (8453 < 2 ^ 53)%N /\ chainId_transform (pretty 8453%N) = Ok 8453%N.
Proof.
  split; [reflexivity |]. apply (chainId_transform_decimal_text 8453). reflexivity.
Defined.

Lemma chainId_transform_negative_text_witness :
  (0 < 1 < 2 ^ 53)%N /\
  chainId_transform ("-" +:+ pretty 1%N)
  = Throw (Error ("chainId must be a valid positive integer value: -" +:+ pretty 1%N)).
Proof.
  split; [split; reflexivity |].
  apply (chainId_transform_negative_text 1). split; reflexivity.
Defined.

End ChainIdProperties.

(** * Further properties of the routes *)

Section ImageRouteFurther.
Context `{Platform} `{Storage}.

(** X17: an address that is not an Ethereum address, with a chain id
    that is accepted, is answered 400 with the message of the schema;
    neither S3 nor the file system is touched. *)
Theorem image_route_invalid_address (chainIdParam addressParam : string)
    (chainId : N) (st : list Call * StorageWorld) :
  chainId_transform chainIdParam = Ok chainId ->
  isAddress addressParam = false ->
  image_route chainIdParam addressParam st
  = (Ok (JsonResponse 400
           (JObject [ ("error", JString "Invalid parameters");
                      ("details",
                       JArray [JString "address must be a valid Ethereum address"]) ])),
     st).
Proof.
  intros Hchain Haddress.
  unfold image_route, try_catch, bind, lift, ret, paramsSchema_parse.
  now rewrite Hchain; cbn; rewrite Haddress.
Qed.

(** X18: a chain id the schema rejects is answered 500 by the image
    route, whatever the address; neither S3 nor the file system is
    touched. *)
Theorem image_route_invalid_chainId (chainIdParam addressParam : string)
    (e : Exn) (st : list Call * StorageWorld) :
  chainId_transform chainIdParam = Throw e ->
  image_route chainIdParam addressParam st
  = (Ok (JsonResponse 500 (JObject [ ("error", JString "Internal server error") ])),
     st).
Proof.
  intros Hchain.
  destruct (chainId_transform_throws_Error chainIdParam e Hchain) as [message ->].
  unfold image_route, try_catch, bind, lift, ret, paramsSchema_parse.
  now rewrite Hchain.
Qed.

(** X19: the image route never throws: it always resolves to a
    response, and the status of that response is 200, 400 or 500. *)
Theorem image_route_status (chainIdParam addressParam : string)
    (st : list Call * StorageWorld) :
  exists response st',
    image_route chainIdParam addressParam st = (Ok response, st') /\
    (response_status response = 200 \/ response_status response = 400
     \/ response_status response = 500)%N.
Proof.
  assert (Hserve : forall (body : bytes) (type : JsValue) (st1 : list Call * StorageWorld),
             exists response st',
               match lift (image_response body type) st1 with
               | (Ok a, st2) => (Ok a, st2)
               | (Throw e, st2) => ret (image_catch e) st2
               end = (Ok response, st') /\
               (response_status response = 200 \/ response_status response = 400
                \/ response_status response = 500)%N).
  { intros body type st1. unfold lift, ret.
    pose proof (image_response_answer body type) as Hanswer.
    destruct (image_response body type) as [response | e];
      eexists _, _; (split; [reflexivity |]); rewrite Hanswer;
      destruct (header_value (value_text type)); [| auto | | auto];
      destruct (header_value _); cbn; auto. }
  destruct st as [trace w].
  unfold image_route, try_catch, bind at 1.
  unfold lift at 1.
  destruct (paramsSchema_parse chainIdParam addressParam) as [[chainId address] | e].
  - cbn [fst snd]. unfold bind at 1.
    destruct (getImageFromS3 chainId address (trace, w)) as [[[image |] | e] st1].
    + unfold bind at 1, ret at 1. apply Hserve.
    + unfold bind at 1.
      destruct (getImageFromSourceDir chainId address st1)
        as [[[image |] | e] [trace2 w2]].
      * apply Hserve.
      * unfold bind at 1, call.
        destruct (readFile defaultImagePath w2) as [[content | e] w3].
        -- apply Hserve.
        -- destruct e; unfold ret; eexists _, _; (split; [reflexivity | auto]).
      * destruct e; unfold ret; eexists _, _; (split; [reflexivity | auto]).
    + destruct e; unfold ret; eexists _, _; (split; [reflexivity | auto]).
  - destruct e; unfold ret; eexists _, _; (split; [reflexivity | auto]).
Qed.

(** X20: when neither S3 nor the token directory has an image and the
    placeholder cannot be read, the image route answers 500. *)
Theorem image_route_placeholder_missing (chainIdParam addressParam : string)
    (chainId : N) (address : string) (trace trace2 : list Call)
    (w w2 w3 : StorageWorld) (st1 : list Call * StorageWorld) (message : string) :
  paramsSchema_parse chainIdParam addressParam = Ok (chainId, address) ->
  getImageFromS3 chainId address (trace, w) = (Ok None, st1) ->
  getImageFromSourceDir chainId address st1 = (Ok None, (trace2, w2)) ->
  readFile defaultImagePath w2 = (Throw (Error message), w3) ->
  image_route chainIdParam addressParam (trace, w)
  = (Ok (JsonResponse 500 (JObject [ ("error", JString "Internal server error") ])),
     ((trace2 ++ [FsReadFile defaultImagePath])%list, w3)).
Proof.
  intros Hparse HS3 Hdir Hread.
  unfold image_route, try_catch, bind at 1, lift.
  rewrite Hparse. cbn [fst snd]. unfold bind at 1. rewrite HS3.
  unfold bind at 1. rewrite Hdir.
  unfold bind, call, ret. now rewrite Hread.
Qed.

End ImageRouteFurther.

Section SyncRouteFurther.
Context `{Platform} `{SyncService}.

(** X21: every chain id the schema rejects is answered 500 by both
    sync routes, with the message of the transform; the service is not
    called. *)
Theorem sync_routes_reject_with_500 (param : string) (e : Exn)
    (st : list Call * SyncWorld) :
  syncParamsSchema_parse param = Throw e ->
  let response :=
    JsonResponse 500
      (JObject [ ("error", JString "Internal server error");
                 ("message",
                  JString ("chainId must be a valid positive integer value: "
                           +:+ param)) ]) in
  sync_route param st = (Ok response, st) /\
  sync_status_route param st = (Ok response, st).
Proof.
  intros Hparse. cbn zeta.
  destruct (sync_routes_on_rejected_chainId param e st Hparse) as [-> ->].
  unfold syncParamsSchema_parse, chainId_transform in Hparse.
  destruct (_ || _ || _); [| discriminate].
  injection Hparse as <-. split; reflexivity.
Qed.

(** X22: when [startSync] rejects with an [Error], the sync route
    answers 500 with the message of that error. *)
Theorem sync_route_start_rejected (param : string) (chainId : N)
    (trace : list Call) (w w1 w2 : SyncWorld) (existingStatus : option SyncJob)
    (message : string) :
  syncParamsSchema_parse param = Ok chainId ->
  getSyncStatus chainId w = (Ok existingStatus, w1) ->
  is_running existingStatus = false ->
  startSync chainId w1 = (Throw (Error message), w2) ->
  sync_route param (trace, w)
  = (Ok (JsonResponse 500
           (JObject [ ("error", JString "Internal server error");
                      ("message", JString message) ])),
     ((trace ++ [SyncGetStatus chainId; SyncStart chainId])%list, w2)).
Proof.
  intros Hparse Hstatus Hidle Hstart.
  unfold sync_route, try_catch, bind, lift, ret, call.
  rewrite Hparse, Hstatus. cbn.
  unfold is_running in Hidle.
  destruct (running_record existingStatus); [discriminate |].
  rewrite Hstart. cbn. now rewrite <- app_assoc.
Qed.

End SyncRouteFurther.

(** * Further scenarios *)

Module FurtherScenarios.

(** The object of the small deployment arrives in two chunks. *)
Lemma getImageFromS3_payload_witness :
  @getImageFromS3 Demo.platform Demo.storage 8453 Demo.usdc ([], tt)
  = (Ok (Some {| buffer := Demo.png_bytes;
                 contentType := VString "image/png";
                 extension := Some "png" |}),
     ([S3GetObject BUCKET_NAME DemoStore.usdc_key], tt)).
Proof.
  apply (@getImageFromS3_payload Demo.platform Demo.storage 8453 Demo.usdc [] tt tt
           {| Body := Some (StreamOpens
                              (ReadChunk [Byte.x89; Byte.x50]
                                 (ReadChunk [Byte.x4e; Byte.x47] ReadDone)));
              ContentType := Some "image/png";
              Metadata := Some [("extension", "png")] |}
           [[Byte.x89; Byte.x50]; [Byte.x4e; Byte.x47]]);
    reflexivity.
Defined.

Lemma getImageFromS3_broken_stream_witness :
  @getImageFromS3 Demo.platform DemoStore.broken 8453 Demo.usdc ([], tt)
  = (Ok None, ([S3GetObject BUCKET_NAME DemoStore.usdc_key], tt)).
Proof.
  apply (@getImageFromS3_broken_stream Demo.platform DemoStore.broken 8453 Demo.usdc
           [] tt tt
           {| Body := Some (StreamOpens
                              (ReadChunk [Byte.x89; Byte.x50]
                                 (ReadFail (Error "ECONNRESET"))));
              ContentType := Some "image/png";
              Metadata := None |}
           [[Byte.x89; Byte.x50]] (Error "ECONNRESET"));
    reflexivity.
Defined.

Lemma lookups_ignore_address_case_witness :
  JsString.toLowerCase Demo.usdc = JsString.toLowerCase DemoStore.usdc_lower /\
  @getImageFromS3 Demo.platform Demo.storage 8453 Demo.usdc
  = @getImageFromS3 Demo.platform Demo.storage 8453 DemoStore.usdc_lower.
Proof.
  split; [reflexivity |].
  apply (@lookups_ignore_address_case Demo.platform Demo.storage 8453
           Demo.usdc DemoStore.usdc_lower).
  reflexivity.
Defined.

(** An upload of an svg into the empty bucket in memory: the command
    is stored under the key of the token. *)
Lemma uploadImageToS3_resolves_witness :
  @uploadImageToS3 Demo.platform DemoStore.storage DemoStore.writer
    8453 Demo.usdc [Byte.x89; Byte.x50; Byte.x4e; Byte.x47] "svg"
    {| meta_provider := "coingecko";
       meta_downloadDate := "2025-01-01";
       meta_originalUrl := Some "https://example.org/usdc.svg" |} ([], [])
  = (Ok true,
     ([],
      [ ("8453/0x833589fcd6edb6e08f4c7c32d4f71b54bda02913/image",
         {| put_Bucket := "hypurrfi-token-imgs";
            put_Key := "8453/0x833589fcd6edb6e08f4c7c32d4f71b54bda02913/image";
            put_Body := [Byte.x89; Byte.x50; Byte.x4e; Byte.x47];
            put_ContentType := VString "image/svg+xml";
            put_Metadata :=
              [ ("extension", "svg");
                ("provider", "coingecko");
                ("downloadDate", "2025-01-01");
                ("originalUrl", "https://example.org/usdc.svg") ] |}) ])).
Proof.
  exact (@uploadImageToS3_resolves Demo.platform DemoStore.storage DemoStore.writer
           8453 Demo.usdc [Byte.x89; Byte.x50; Byte.x4e; Byte.x47] "svg"
           {| meta_provider := "coingecko";
              meta_downloadDate := "2025-01-01";
              meta_originalUrl := Some "https://example.org/usdc.svg" |} [] []).
Defined.

(** Two tokens, the second with an address in upper case: two
    HeadObject requests, in that order. *)
Lemma bulkCheckImagesInS3_requests_witness :
  fst (snd (@bulkCheckImagesInS3 Demo.platform Demo.storage
              [ {| token_chainId := 8453; token_address := Demo.usdc |};
                {| token_chainId := 1; token_address := "0xABCDEF" |} ]
              ([], tt)))
  = [ S3HeadObject "hypurrfi-token-imgs"
        "8453/0x833589fcd6edb6e08f4c7c32d4f71b54bda02913/image";
      S3HeadObject "hypurrfi-token-imgs" "1/0xabcdef/image" ].
Proof.
  exact (@bulkCheckImagesInS3_requests Demo.platform Demo.storage
           [ {| token_chainId := 8453; token_address := Demo.usdc |};
             {| token_chainId := 1; token_address := "0xABCDEF" |} ]
           [] tt).
Defined.

(** An upload into the empty bucket in memory, read back under the
    lower-case address. *)
Lemma upload_then_get_witness :
  @uploadImageToS3 Demo.platform DemoStore.storage DemoStore.writer
    8453 Demo.usdc Demo.png_bytes "svg" DemoStore.metadata ([], [])
  = (Ok true,
     ([], [(DemoStore.usdc_key,
            @put_command Demo.platform 8453 Demo.usdc Demo.png_bytes "svg"
              DemoStore.metadata)])) /\
  fst (@getImageFromS3 Demo.platform DemoStore.storage 8453 DemoStore.usdc_lower
         ([], [(DemoStore.usdc_key,
                @put_command Demo.platform 8453 Demo.usdc Demo.png_bytes "svg"
                  DemoStore.metadata)]))
  = Ok (Some {| buffer := Demo.png_bytes;
                contentType := VString "image/svg+xml";
                extension := Some "svg" |}).
Proof.
  destruct (@upload_then_get Demo.platform DemoStore.storage DemoStore.writer
              8453 Demo.usdc DemoStore.usdc_lower Demo.png_bytes "svg" DemoStore.metadata
              [] [] _ _ _ eq_refl eq_refl eq_refl) as [Hup Hget].
  - split; [eexists _, _; repeat split; reflexivity |].
    split; [| eexists; split; reflexivity].
    intros s [= <-]. reflexivity.
  - split; [exact Hup | exact (f_equal fst Hget)].
Defined.

Lemma getImageFromSourceDir_prefers_png_witness :
  @getImageFromSourceDir Demo.platform DemoStore.disk 1 Demo.usdc ([], tt)
  = (Ok (Some {| buffer := Demo.png_bytes;
                 contentType := VString "image/png";
                 extension := Some "png" |}),
     ([FsReaddir "/app/images/1/0x833589fcd6edb6e08f4c7c32d4f71b54bda02913";
       FsReadFile "/app/images/1/0x833589fcd6edb6e08f4c7c32d4f71b54bda02913/image.png"],
      tt)).
Proof.
  apply (@getImageFromSourceDir_prefers_png Demo.platform DemoStore.disk 1 Demo.usdc
           [] tt tt tt ["image.svg"; "image.jpg"; "image.png"; "notes.txt"]
           "image.png" Demo.png_bytes);
    reflexivity.
Defined.

Lemma getImageFromSourceDir_falls_back_to_jpg_witness :
  @getImageFromSourceDir Demo.platform DemoStore.disk_jpg 1 Demo.usdc ([], tt)
  = (Ok (Some {| buffer := Demo.png_bytes;
                 contentType := VString "image/jpeg";
                 extension := Some "jpg" |}),
     ([FsReaddir "/app/images/1/0x833589fcd6edb6e08f4c7c32d4f71b54bda02913";
       FsReadFile "/app/images/1/0x833589fcd6edb6e08f4c7c32d4f71b54bda02913/image.jpg"],
      tt)).
Proof.
  apply (@getImageFromSourceDir_falls_back_to_jpg Demo.platform DemoStore.disk_jpg
           1 Demo.usdc [] tt tt tt ["image.svg"; "image.jpg"; "notes.txt"]
           "image.jpg" Demo.png_bytes);
    reflexivity.
Defined.

Lemma getImageFromSourceDir_no_candidate_witness :
  @getImageFromSourceDir Demo.platform DemoStore.disk_empty 1 Demo.usdc ([], tt)
  = (Ok None,
     ([FsReaddir "/app/images/1/0x833589fcd6edb6e08f4c7c32d4f71b54bda02913"], tt)).
Proof.
  apply (@getImageFromSourceDir_no_candidate Demo.platform DemoStore.disk_empty
           1 Demo.usdc [] tt tt ["notes.txt"; "logo.png"]);
    reflexivity.
Defined.

Lemma bulkCheckImagesInS3_flags_witness :
  fst (@bulkCheckImagesInS3 Demo.platform Demo.storage
         [ {| token_chainId := 8453; token_address := Demo.usdc |};
           {| token_chainId := 1; token_address := Demo.usdc |} ] ([], tt))
  = Ok [ {| chainId := 8453; address := Demo.usdc; exists_ := true |};
         {| chainId := 1; address := Demo.usdc; exists_ := false |} ].
Proof.
  assert (Hpure : forall bucket key (w0 : @StorageWorld Demo.storage),
             snd (@s3_head Demo.storage bucket key w0) = w0).
  { intros bucket key w0. cbn. now destruct (String.eqb key _). }
  exact (f_equal fst
           (@bulkCheckImagesInS3_flags Demo.platform Demo.storage
              [ {| token_chainId := 8453; token_address := Demo.usdc |};
                {| token_chainId := 1; token_address := Demo.usdc |} ] [] tt Hpure)).
Defined.

Lemma image_route_invalid_address_witness :
  chainId_transform "8453" = Ok 8453%N /\
  @image_route Demo.platform Demo.storage "8453" "not-an-address" ([], tt)
  = (Ok (JsonResponse 400
           (JObject [ ("error", JString "Invalid parameters");
                      ("details",
                       JArray [JString "address must be a valid Ethereum address"]) ])),
     ([], tt)).
Proof.
  split; [reflexivity |].
  apply (@image_route_invalid_address Demo.platform Demo.storage "8453"
           "not-an-address" 8453 ([], tt));
    reflexivity.
Defined.

Lemma image_route_invalid_chainId_witness :
  @image_route Demo.platform Demo.storage "1.5" Demo.usdc ([], tt)
  = (Ok (JsonResponse 500 (JObject [ ("error", JString "Internal server error") ])),
     ([], tt)).
Proof.
  apply (@image_route_invalid_chainId Demo.platform Demo.storage "1.5" Demo.usdc
           (Error "chainId must be a valid positive integer value: 1.5") ([], tt)).
  reflexivity.
Defined.

Lemma image_route_placeholder_missing_witness :
  @image_route Demo.platform DemoStore.disk_empty "1" Demo.usdc ([], tt)
  = (Ok (JsonResponse 500 (JObject [ ("error", JString "Internal server error") ])),
     ([S3GetObject BUCKET_NAME "1/0x833589fcd6edb6e08f4c7c32d4f71b54bda02913/image";
       FsReaddir "/app/images/1/0x833589fcd6edb6e08f4c7c32d4f71b54bda02913";
       FsReadFile "/app/images/default.png"], tt)).
Proof.
  apply (@image_route_placeholder_missing Demo.platform DemoStore.disk_empty
           "1" Demo.usdc 1 Demo.usdc []
           [S3GetObject BUCKET_NAME "1/0x833589fcd6edb6e08f4c7c32d4f71b54bda02913/image";
            FsReaddir "/app/images/1/0x833589fcd6edb6e08f4c7c32d4f71b54bda02913"]
           tt tt tt
           ([S3GetObject BUCKET_NAME "1/0x833589fcd6edb6e08f4c7c32d4f71b54bda02913/image"],
            tt)
           "ENOENT");
    reflexivity.
Defined.

Lemma sync_routes_reject_with_500_witness :
  syncParamsSchema_parse "-7" = Throw (Error "chainId must be a valid positive integer value: -7") /\
  @sync_route Demo.service "-7" ([], Demo.running_world)
  = (Ok (JsonResponse 500
           (JObject [ ("error", JString "Internal server error");
                      ("message",
                       JString "chainId must be a valid positive integer value: -7") ])),
     ([], Demo.running_world)).
Proof.
  split; [reflexivity |].
  apply (@sync_routes_reject_with_500 Demo.platform Demo.service "-7"
           (Error "chainId must be a valid positive integer value: -7")
           ([], Demo.running_world)).
  reflexivity.
Defined.

Lemma sync_route_start_rejected_witness :
  @sync_route DemoStore.failing_service "8453" ([], tt)
  = (Ok (JsonResponse 500
           (JObject [ ("error", JString "Internal server error");
                      ("message", JString "provider unreachable") ])),
     ([SyncGetStatus 8453; SyncStart 8453], tt)).
Proof.
  apply (@sync_route_start_rejected DemoStore.failing_service "8453" 8453 [] tt tt tt
           None "provider unreachable");
    reflexivity.
Defined.

End FurtherScenarios.
